(** * ddg_search: the image-search client, embedded and verified

    Shallow embedding of [src/ddg_search/client.py] (class [Client]):
    the token fetch [_get_vqd], the paginated generator [asearch], the page
    scraper [get_images_from_page] and [download].

    Python values are modelled as follows.
    - [str] is [string]; the text handled by the client (keywords, URLs,
      filter names) is ASCII, and [lower] acts on the letters A-Z.
    - Python [int] is [Z].
    - An exception is a constructor of [exn]; a computation that may raise
      is a [result].
    - The HTTP client is the environment: a function from a request to the
      [result] of performing it. *)

From Stdlib Require Import ZArith List String Ascii Bool Lia DecimalString Sorted.
Import ListNotations.
Open Scope string_scope.
Open Scope list_scope.

(** ** Exceptions and fallible computations *)

(** The exception classes the client can meet.  [TransportError],
    [DecodingError] and [TooManyRedirects] are the subclasses of
    [httpx.RequestError]; [HTTPStatusError] is what
    [Response.raise_for_status] raises.  [NetworkError], [VQDTokenError] and
    [ParsingError] are the package's own (module [exceptions]). *)
Inductive exn : Type :=
| TransportError
| DecodingError
| TooManyRedirects
| HTTPStatusError
| NetworkError
| VQDTokenError
| ParsingError
| ValidationError
| TypeError
| IndexError
| OtherError (name : string).

Inductive result (A : Type) : Type :=
| Ok (a : A)
| Raise (e : exn).
Arguments Ok {A} a.
Arguments Raise {A} e.

Definition bind {A B : Type} (r : result A) (k : A -> result B) : result B :=
  match r with
  | Ok a => k a
  | Raise e => Raise e
  end.

Notation "x <- r ;; k" := (bind r (fun x => k))
  (at level 61, r at next level, right associativity).

(** [try: body except cls as e: handler]: the handler runs only for an
    exception that is an instance of [cls]; any other one propagates. *)
Definition try_except {A : Type} (body : result A) (cls : exn -> bool)
    (handler : exn -> result A) : result A :=
  match body with
  | Ok a => Ok a
  | Raise e => if cls e then handler e else Raise e
  end.

(** [isinstance(e, httpx.RequestError)].  In httpx the class tree is
    [HTTPError] > [RequestError] > {[TransportError], [DecodingError],
    [TooManyRedirects]} and [HTTPError] > [HTTPStatusError]: a status error
    is not a request error. *)
Definition is_RequestError (e : exn) : bool :=
  match e with
  | TransportError | DecodingError | TooManyRedirects => true
  | _ => false
  end.

(** [isinstance(e, Exception)]: every class of [exn] derives from it. *)
Definition is_Exception (e : exn) : bool := true.

(** ** Strings *)

Definition is_upper (c : ascii) : bool :=
  ((65 <=? nat_of_ascii c) && (nat_of_ascii c <=? 90))%nat.

Definition lower_char (c : ascii) : ascii :=
  if is_upper c then ascii_of_nat (nat_of_ascii c + 32) else c.

(** [s.lower()] *)
Fixpoint lower (s : string) : string :=
  match s with
  | EmptyString => EmptyString
  | String c s' => String (lower_char c) (lower s')
  end.

(** [s.split(sep)] for a one-character separator: never an empty list. *)
Fixpoint split (sep : ascii) (s : string) : list string :=
  match s with
  | EmptyString => [EmptyString]
  | String c s' =>
      if Ascii.eqb c sep then EmptyString :: split sep s'
      else match split sep s' with
           | h :: t => String c h :: t
           | [] => [String c EmptyString]
           end
  end.

(** [sep.join(l)] *)
Definition join (sep : string) (l : list string) : string := concat sep l.

(** Truthiness of a [str]: only the empty string is falsy. *)
Definition truthy (s : string) : bool :=
  match s with
  | EmptyString => false
  | String _ _ => true
  end.

(** Truthiness of an [Optional[str]]: [None] and [""] are falsy. *)
Definition truthy_opt (o : option string) : bool :=
  match o with
  | None => false
  | Some s => truthy s
  end.

(** [str(n)] for an [int]. *)
Definition str_of_int (n : Z) : string := NilZero.string_of_int (Z.to_int n).

(** ** [asearch]: the safe-search code and the filter string *)

(** [safesearch_map = {"on": "1", "moderate": "-1", "off": "-2"}] *)
Definition safesearch_map : list (string * string) :=
  [("on", "1"); ("moderate", "-1"); ("off", "-2")].

(** [d.get(key, default)] on a dict given by its items. *)
Fixpoint dict_get (d : list (string * string)) (key default : string) : string :=
  match d with
  | [] => default
  | (k, v) :: d' => if String.eqb k key then v else dict_get d' key default
  end.

(** [p_value = safesearch_map.get(safesearch.lower(), "-1")] *)
Definition p_value (safesearch : string) : string :=
  dict_get safesearch_map (lower safesearch) "-1".

(** The six optional filter arguments of [asearch]. *)
Record search_filters : Type := mkFilters {
  timelimit : option string;
  size : option string;
  color : option string;
  type_image : option string;
  layout : option string;
  license_image : option string
}.

(** [f"key:{v}" if v else ""] *)
Definition render (key : string) (v : option string) : string :=
  match v with
  | Some s => if truthy s then key ++ ":" ++ s else ""
  | None => ""
  end.

Definition filters (fs : search_filters) : list string :=
  [ render "time" (timelimit fs);
    render "size" (size fs);
    render "color" (color fs);
    render "type" (type_image fs);
    render "layout" (layout fs);
    render "license" (license_image fs) ].

(** [f_value = ",".join(filter(None, filters))] *)
Definition f_value (fs : search_filters) : string :=
  join "," (List.filter truthy (filters fs)).

(** ** Regular expressions: the fragment used by [_get_vqd]

    A pattern is a sequence of items, each a single character of a class or a
    greedy run [cls+], possibly wrapped in a capturing group.  [match_here]
    is the backtracking matcher of Python's [re]: a run first takes as many
    characters as it can and gives them back one at a time while the rest of
    the pattern fails. *)

Inductive atom : Type :=
| One (cls : ascii -> bool)
| Many1 (cls : ascii -> bool).

Inductive item : Type :=
| Plain (a : atom)
| Group (a : atom).

Definition atom_of (it : item) : atom :=
  match it with
  | Plain a => a
  | Group a => a
  end.

(** Record what an item consumed when the item is a group. *)
Definition capture (it : item) (w : string) (caps : list string) : list string :=
  match it with
  | Plain _ => caps
  | Group _ => w :: caps
  end.

(** Consume one or more characters of [cls], the longest run first, then
    continue with [k]. *)
Fixpoint greedy1 (cls : ascii -> bool) (k : string -> option (list string))
    (s : string) : option (string * list string) :=
  match s with
  | EmptyString => None
  | String c s' =>
      if cls c then
        match greedy1 cls k s' with
        | Some (w, caps) => Some (String c w, caps)
        | None =>
            match k s' with
            | Some caps => Some (String c EmptyString, caps)
            | None => None
            end
        end
      else None
  end.

(** [re.match]: the pattern against a prefix of [s]; the groups on success. *)
Fixpoint match_here (pat : list item) (s : string) : option (list string) :=
  match pat with
  | [] => Some []
  | it :: pat' =>
      match atom_of it with
      | One cls =>
          match s with
          | EmptyString => None
          | String c s' =>
              if cls c then
                match match_here pat' s' with
                | Some caps => Some (capture it (String c EmptyString) caps)
                | None => None
                end
              else None
          end
      | Many1 cls =>
          match greedy1 cls (match_here pat') s with
          | Some (w, caps) => Some (capture it w caps)
          | None => None
          end
      end
  end.

(** [re.search]: the match at the leftmost position where there is one. *)
Fixpoint re_search (pat : list item) (s : string) : option (list string) :=
  match match_here pat s with
  | Some caps => Some caps
  | None =>
      match s with
      | EmptyString => None
      | String _ s' => re_search pat s'
      end
  end.

(** [m.group(1)] *)
Definition group1 (caps : list string) : result string :=
  match caps with
  | g :: _ => Ok g
  | [] => Raise IndexError
  end.

Definition lit (c : ascii) : item := Plain (One (Ascii.eqb c)).

(** The class of the two quote characters (single and double) of the pattern. *)
Definition is_quote (c : ascii) : bool :=
  Ascii.eqb c "'"%char || Ascii.eqb c (ascii_of_nat 34).

Definition in_range (lo hi : nat) (c : ascii) : bool :=
  ((lo <=? nat_of_ascii c) && (nat_of_ascii c <=? hi))%nat.

(** [a-zA-Z0-9-] *)
Definition is_token_char (c : ascii) : bool :=
  in_range 97 122 c || in_range 65 90 c || in_range 48 57 c
  || Ascii.eqb c "-"%char.

(** The pattern of [re.search] in [_get_vqd]: the four characters [vqd=], a
    quote, the group [([a-zA-Z0-9-]+)], a quote. *)
Definition vqd_pattern : list item :=
  [ lit "v"; lit "q"; lit "d"; lit "=";
    Plain (One is_quote); Group (Many1 is_token_char); Plain (One is_quote) ].

(** ** HTTP responses *)

(** A response: its status code and what the operation reads from it. *)
Record response (B : Type) : Type := mkResponse {
  status_code : Z;
  payload : B
}.
Arguments mkResponse {B} _ _.
Arguments status_code {B} _.
Arguments payload {B} _.

(** [response.is_success]: a 2xx status. *)
Definition is_success {B : Type} (r : response B) : bool :=
  ((200 <=? status_code r) && (status_code r <=? 299))%Z.

(** [response.raise_for_status()] *)
Definition raise_for_status {B : Type} (r : response B) : result unit :=
  if is_success r then Ok tt else Raise HTTPStatusError.

(** The handler of every [except httpx.RequestError] of the client. *)
Definition to_NetworkError {A : Type} (_ : exn) : result A := Raise NetworkError.

(** The [try] block shared by the four operations:
    [response = await request; response.raise_for_status()], with
    [except httpx.RequestError: raise NetworkError]. *)
Definition checked_request {B : Type} (request : result (response B))
    : result (response B) :=
  try_except
    (r <- request ;; _ <- raise_for_status r ;; Ok r)
    is_RequestError to_NetworkError.

(** ** [_get_vqd] *)

(** [post] is [self._http_client.post("https://duckduckgo.com/", data={"q": keywords})];
    the payload of its response is the outcome of reading [response.text]. *)
Definition _get_vqd (post : string -> result (response (result string)))
    (keywords : string) : result string :=
  r <- checked_request (post keywords) ;;
  try_except
    (text <- payload r ;;
     match re_search vqd_pattern text with
     | Some m => group1 m
     | None => Raise VQDTokenError
     end)
    is_Exception (fun _ => Raise VQDTokenError).

(** ** [asearch]: the paginated generator *)

(** The query parameters of one request to [i.js]. *)
Record params : Type := mkParams {
  param_l : string;
  param_o : string;
  param_q : string;
  param_s : string;
  param_p : string;
  param_f : string;
  param_vqd : string
}.

Section Search.

(** The module [models] is not among the sources: the raw entries of a page,
    the validated record and [ImageResult.model_validate] are parameters. *)
Variable RawEntry : Type.
Variable ImageResult : Type.
Variable model_validate : RawEntry -> result ImageResult.

(** What [asearch] looks at in a decoded page: [data.get("results")]
    ([None] when the key is missing) and ["next" in data].  The body is taken
    to decode to a JSON object whose results, when present, are null or an
    array. *)
Record page_data : Type := mkPage {
  results : option (list RawEntry);
  has_next : bool
}.

(** What an observer of a fully consumed generator sees, in order: the
    requests it sends and the records it yields. *)
Inductive event : Type :=
| EvPost (keywords : string)
| EvGet (p : params)
| EvYield (r : ImageResult).

(** How the generator ends: it is exhausted ([return], [break]), it raises,
    or the model ran out of loop iterations. *)
Inductive outcome : Type :=
| Finished
| Raised (e : exn)
| OutOfFuel.

(** [max_results is not None and results_yielded >= max_results] *)
Definition cap_reached (max_results : option Z) (results_yielded : Z) : bool :=
  match max_results with
  | None => false
  | Some m => (m <=? results_yielded)%Z
  end.

(** The [for res in results] loop.  The result is the records yielded, the
    counter [results_yielded] at the end, and whether the loop was left by
    [return]. *)
Fixpoint page_loop (max_results : option Z) (results_yielded : Z)
    (rs : list RawEntry) : list event * Z * bool :=
  match rs with
  | [] => ([], results_yielded, false)
  | res :: rs' =>
      if cap_reached max_results results_yielded then
        ([], results_yielded, true)
      else
        match model_validate res with
        | Ok img =>
            let '(evs, y, returned) :=
              page_loop max_results (results_yielded + 1) rs' in
            (EvYield img :: evs, y, returned)
        | Raise _ => page_loop max_results results_yielded rs'
        end
  end.

Variable get : params -> result (response (result page_data)).

Section Loop.

Variable max_results : option Z.
Variable mk : Z -> params.

(** The [while True] loop, [fuel] bounding the number of iterations. *)
Fixpoint search_loop (fuel : nat) (offset results_yielded : Z)
    : list event * outcome :=
  match fuel with
  | O => ([], OutOfFuel)
  | S fuel' =>
      let p := mk offset in
      match checked_request (get p) with
      | Raise e => ([EvGet p], Raised e)
      | Ok response =>
          match try_except (payload response) is_Exception
                  (fun _ => Raise ParsingError) with
          | Raise e => ([EvGet p], Raised e)
          | Ok data =>
              match results data with
              | None | Some [] => ([EvGet p], Finished)
              | Some rs =>
                  let '(evs, y, returned) :=
                    page_loop max_results results_yielded rs in
                  if returned then (EvGet p :: evs, Finished)
                  else if negb (has_next data) then (EvGet p :: evs, Finished)
                  else
                    let '(evs', out) :=
                      search_loop fuel' (offset + Z.of_nat (List.length rs)) y in
                    (EvGet p :: evs ++ evs', out)
              end
          end
      end
  end.

End Loop.

Variable post : string -> result (response (result string)).

(** The [params] dict built at the head of each iteration. *)
Definition search_params (keywords region safesearch : string) (fs : search_filters)
    (vqd : string) (offset : Z) : params :=
  {| param_l := region;
     param_o := "json";
     param_q := keywords;
     param_s := str_of_int offset;
     param_p := p_value safesearch;
     param_f := f_value fs;
     param_vqd := vqd |}.

Definition asearch (keywords : string) (max_results : option Z)
    (region safesearch : string) (fs : search_filters) (fuel : nat)
    : list event * outcome :=
  match _get_vqd post keywords with
  | Raise e => ([EvPost keywords], Raised e)
  | Ok vqd =>
      let '(evs, out) :=
        search_loop max_results
          (search_params keywords region safesearch fs vqd) fuel 0%Z 0%Z in
      (EvPost keywords :: evs, out)
  end.

End Search.

Arguments results {RawEntry} _.
Arguments has_next {RawEntry} _.
Arguments mkPage {RawEntry} _ _.
Arguments EvPost {ImageResult} _.
Arguments EvGet {ImageResult} _.
Arguments EvYield {ImageResult} _.
Arguments page_loop {RawEntry ImageResult} _ _ _ _.
Arguments search_loop {RawEntry ImageResult} _ _ _ _ _ _ _.
Arguments asearch {RawEntry ImageResult} _ _ _ _ _ _ _ _ _.

(** ** [get_images_from_page] *)

Section Scraper.

(** The HTML parser and [urllib.parse.urljoin] are libraries:
    [find_all_img text] stands for
    [BeautifulSoup(text, "lxml").find_all("img")], each tag given by its
    [img.get("src")] ([None] when the attribute is missing), in document
    order; both may raise. *)
Variable find_all_img : string -> result (list (option string)).
Variable urljoin : string -> string -> result string.

Variable get_page : string -> result (response string).

(** [[img.get("src") for img in img_tags if img.get("src")]] *)
Fixpoint image_urls (img_tags : list (option string)) : list string :=
  match img_tags with
  | [] => []
  | img :: tags =>
      if truthy_opt img then
        match img with
        | Some src => src :: image_urls tags
        | None => image_urls tags
        end
      else image_urls tags
  end.

(** [[urljoin(url, img_url) for img_url in image_urls]] *)
Fixpoint absolute_image_urls (url : string) (urls : list string)
    : result (list string) :=
  match urls with
  | [] => Ok []
  | img_url :: urls' =>
      a <- urljoin url img_url ;;
      rest <- absolute_image_urls url urls' ;;
      Ok (a :: rest)
  end.

Definition get_images_from_page (url : string) : result (list string) :=
  r <- checked_request (get_page url) ;;
  try_except
    (img_tags <- find_all_img (payload r) ;;
     absolute_image_urls url (image_urls img_tags))
    is_Exception (fun _ => Raise ParsingError).

End Scraper.

(** ** [download] *)

(** The value bound to [filename] when the path is built: a [str], or the
    [list] that [str.split] returns. *)
Inductive pyval : Type :=
| PStr (s : string)
| PList (l : list string).

Definition truthy_val (v : pyval) : bool :=
  match v with
  | PStr s => truthy s
  | PList [] => false
  | PList (_ :: _) => true
  end.

(** [l[-1]] *)
Definition last_item (l : list string) : result string :=
  match rev l with
  | x :: _ => Ok x
  | [] => Raise IndexError
  end.

Definition starts_with_slash (s : string) : bool :=
  match s with
  | String c _ => Ascii.eqb c "/"%char
  | EmptyString => false
  end.

Fixpoint ends_with_slash (s : string) : bool :=
  match s with
  | EmptyString => false
  | String c EmptyString => Ascii.eqb c "/"%char
  | String _ s' => ends_with_slash s'
  end.

(** [os.path.join(a, b)] (POSIX).  A component that is not a [str] makes it
    raise [TypeError]. *)
Definition os_path_join (a : string) (b : pyval) : result string :=
  match b with
  | PList _ => Raise TypeError
  | PStr p =>
      if starts_with_slash p then Ok p
      else if negb (truthy a) || ends_with_slash a then Ok (a ++ p)%string
      else Ok (a ++ "/" ++ p)%string
  end.

(** The first four lines of [download]: the value of [filename] after the
    [if not filename] block. *)
Definition download_filename (url : string) (filename : option string)
    : result pyval :=
  if negb (truthy_opt filename) then
    seg <- last_item (split "/" url) ;;
    let derived := PList (split "?" seg) in
    if negb (truthy_val derived) then Ok (PStr "downloaded_image")
    else Ok derived
  else
    match filename with
    | Some name => Ok (PStr name)
    | None => Ok (PStr "")
    end.

(** [output_path = os.path.join(output_dir, filename)] *)
Definition output_path (url output_dir : string) (filename : option string)
    : result string :=
  name <- download_filename url filename ;;
  os_path_join output_dir name.

(** What [download] does to the outside world. *)
Inductive effect : Type :=
| MakeDirs (dir : string)
| StreamGet (url : string)
| OpenWb (path : string)
| WriteChunk (path : string) (chunk : string).

(** The body of a streamed response: the chunks of [aiter_bytes] and the
    exception that cuts the stream short, if any. *)
Definition stream_body : Type := (list string * option exn)%type.

Definition download (stream : string -> result (response stream_body))
    (url output_dir : string) (filename : option string)
    : list effect * result unit :=
  match output_path url output_dir filename with
  | Raise e => ([], Raise e)
  | Ok path =>
      let body : list effect * result unit :=
        match stream url with
        | Raise e => ([StreamGet url], Raise e)
        | Ok r =>
            match raise_for_status r with
            | Raise e => ([StreamGet url], Raise e)
            | Ok _ =>
                (StreamGet url :: OpenWb path
                   :: map (WriteChunk path) (fst (payload r)),
                 match snd (payload r) with
                 | Some e => Raise e
                 | None => Ok tt
                 end)
            end
        end in
      (MakeDirs output_dir :: fst body,
       try_except (snd body) is_RequestError to_NetworkError)
  end.

(** ** A concrete [ImageResult] for the examples *)

(** Modelled from the spec: the module [models] (class [ImageResult]) is not
    among the sources.  The spec gives a record a title, an image URL, a
    source page URL, a thumbnail URL and a positive width and height.  A raw
    entry is a JSON object, given by the fields it has. *)
Record raw_entry : Type := mkRaw {
  raw_title : option string;
  raw_image : option string;
  raw_url : option string;
  raw_thumbnail : option string;
  raw_width : option Z;
  raw_height : option Z
}.

Record image_result : Type := mkImage {
  title : string;
  image_url : string;
  source_url : string;
  thumbnail_url : string;
  width : Z;
  height : Z
}.

Definition validate_entry (r : raw_entry) : result image_result :=
  match raw_title r, raw_image r, raw_url r, raw_thumbnail r,
        raw_width r, raw_height r with
  | Some t, Some i, Some u, Some th, Some w, Some h =>
      if ((0 <? w) && (0 <? h))%Z then Ok (mkImage t i u th w h)
      else Raise ValidationError
  | _, _, _, _, _, _ => Raise ValidationError
  end.

(** ** Vocabulary of the properties *)

(** The filter string as the specification words it: a field is present
    when an argument was passed for it, and every present field is rendered. *)
Definition spec_render (key : string) (v : option string) : list string :=
  match v with
  | Some s => [(key ++ ":" ++ s)%string]
  | None => []
  end.

Definition spec_f_value (fs : search_filters) : string :=
  join ","
    (spec_render "time" (timelimit fs) ++ spec_render "size" (size fs)
     ++ spec_render "color" (color fs) ++ spec_render "type" (type_image fs)
     ++ spec_render "layout" (layout fs)
     ++ spec_render "license" (license_image fs)).

(** The renderings of the fields that the code takes as present: passed and
    not the empty string. *)
Definition present_render (key : string) (v : option string) : list string :=
  if truthy_opt v then spec_render key v else [].

Definition present_fields (fs : search_filters) : list string :=
  present_render "time" (timelimit fs) ++ present_render "size" (size fs)
  ++ present_render "color" (color fs) ++ present_render "type" (type_image fs)
  ++ present_render "layout" (layout fs)
  ++ present_render "license" (license_image fs).

Definition is_comma (c : ascii) : bool := Ascii.eqb c ","%char.

Fixpoint comma_free (s : string) : bool :=
  match s with
  | EmptyString => true
  | String c s' => negb (is_comma c) && comma_free s'
  end.

Definition value_comma_free (v : option string) : bool :=
  match v with
  | Some s => comma_free s
  | None => true
  end.

Definition values_comma_free (fs : search_filters) : bool :=
  value_comma_free (timelimit fs) && value_comma_free (size fs)
  && value_comma_free (color fs) && value_comma_free (type_image fs)
  && value_comma_free (layout fs) && value_comma_free (license_image fs).

Definition leading_comma (s : string) : bool :=
  match s with
  | String c _ => is_comma c
  | EmptyString => false
  end.

Fixpoint trailing_comma (s : string) : bool :=
  match s with
  | EmptyString => false
  | String c EmptyString => is_comma c
  | String _ s' => trailing_comma s'
  end.

Fixpoint doubled_comma (s : string) : bool :=
  match s with
  | EmptyString => false
  | String c s' => (is_comma c && leading_comma s') || doubled_comma s'
  end.

Definition stray_commas (s : string) : bool :=
  leading_comma s || trailing_comma s || doubled_comma s.

(** A piece of a well-formed join: not empty and without a comma. *)
Definition clean_piece (p : string) : bool := truthy p && comma_free p.

(** Filter bundles of the examples. *)
Definition filters_week_large : search_filters :=
  mkFilters (Some "Week") (Some "Large") None None None None.

Definition filters_empty_time : search_filters :=
  mkFilters (Some "") None None None None (Some "cc,").

(** Servers of the examples: every request is answered with status 404. *)
Definition post_404 (_ : string) : result (response (result string)) :=
  Ok (mkResponse 404 (Ok "vqd='4-1'")).

Definition get_404 (_ : params) : result (response (result (page_data raw_entry))) :=
  Ok (mkResponse 404 (Ok (mkPage None false))).

Definition stream_404 (_ : string) : result (response stream_body) :=
  Ok (mkResponse 404 ([], None)).

(** A server that streams a two-chunk body with status 200. *)
Definition stream_ok (_ : string) : result (response stream_body) :=
  Ok (mkResponse 200 (["ab"; "cd"], None)).

(** Every character of [s] is in the class. *)
Fixpoint all_chars (cls : ascii -> bool) (s : string) : bool :=
  match s with
  | EmptyString => true
  | String c s' => cls c && all_chars cls s'
  end.

(** The token pattern occurs in [text] right after [pre], with [tok] between
    the quotes: [tok] is a non-empty string of letters, digits and hyphens. *)
Definition vqd_at (text pre tok : string) : Prop :=
  exists (q1 q2 : ascii) (post : string),
    text = (pre ++ "vqd=" ++ String q1 (tok ++ String q2 post))%string /\
    is_quote q1 = true /\ is_quote q2 = true /\
    truthy tok = true /\ all_chars is_token_char tok = true.

(** [tok] is the group of the leftmost occurrence of the pattern. *)
Definition first_vqd (text tok : string) : Prop :=
  exists pre : string,
    vqd_at text pre tok /\
    forall pre' tok' : string,
      vqd_at text pre' tok' -> String.length pre <= String.length pre'.

(** A front page that carries a token, served with status 200. *)
Definition front_page : string :=
  "<script>nrj('/d.js?q=cats&vqd='4-987-abc'&l=wt-wt');</script>".

Definition post_token (_ : string) : result (response (result string)) :=
  Ok (mkResponse 200 (Ok front_page)).

(** ** Observations on a run of the generator *)

Section Traces.

Context {RawEntry ImageResult : Type}.
Variable model_validate : RawEntry -> result ImageResult.

(** The records yielded, in order. *)
Fixpoint yields (tr : list (event ImageResult)) : list ImageResult :=
  match tr with
  | [] => []
  | EvYield r :: tr' => r :: yields tr'
  | _ :: tr' => yields tr'
  end.

(** The page requests sent, in order. *)
Fixpoint requests (tr : list (event ImageResult)) : list params :=
  match tr with
  | [] => []
  | EvGet p :: tr' => p :: requests tr'
  | _ :: tr' => requests tr'
  end.

(** The number of page requests sent once [n] records have been yielded. *)
Fixpoint gets_after (n : nat) (tr : list (event ImageResult)) : nat :=
  match tr with
  | [] => 0
  | EvYield _ :: tr' => gets_after (Nat.pred n) tr'
  | EvGet _ :: tr' => (if Nat.eqb n 0 then 1 else 0) + gets_after n tr'
  | EvPost _ :: tr' => gets_after n tr'
  end.

(** The records of the entries of a page that pass validation, in order. *)
Fixpoint valid_entries (rs : list RawEntry) : list ImageResult :=
  match rs with
  | [] => []
  | res :: rs' =>
      match model_validate res with
      | Ok img => img :: valid_entries rs'
      | Raise _ => valid_entries rs'
      end
  end.

(** What is left of a list of records when [results_yielded] have been
    yielded already and at most [max_results] may be. *)
Definition take_cap (max_results : option Z) (results_yielded : Z)
    (l : list ImageResult) : list ImageResult :=
  match max_results with
  | None => l
  | Some m => firstn (Z.to_nat (m - results_yielded)) l
  end.

End Traces.

(** The request at [offset] is answered with a success status and a body
    that decodes to [data]. *)
Definition decoded {RawEntry : Type}
    (get : params -> result (response (result (page_data RawEntry))))
    (mk : Z -> params) (offset : Z) (data : page_data RawEntry) : Prop :=
  exists r : response (result (page_data RawEntry)),
    get (mk offset) = Ok r /\ is_success r = true /\ payload r = Ok data.

(** ** A mock endpoint *)

Definition no_filters : search_filters := mkFilters None None None None None None.

(** A server that answers, with status 200, the page listed for the offset
    of the request, and a page without results for any other offset. *)
Fixpoint serve (pages : list (string * page_data raw_entry)) (p : params)
    : result (response (result (page_data raw_entry))) :=
  match pages with
  | [] => Ok (mkResponse 200 (Ok (mkPage None false)))
  | (s, page) :: pages' =>
      if String.eqb s (param_s p) then Ok (mkResponse 200 (Ok page))
      else serve pages' p
  end.

Definition cat_entry (name : string) : raw_entry :=
  mkRaw (Some name) (Some ("https://img.example/" ++ name)%string)
    (Some ("https://example.org/" ++ name)%string)
    (Some ("https://thumb.example/" ++ name)%string) (Some 640%Z) (Some 480%Z).

Definition cat (name : string) : image_result :=
  mkImage name ("https://img.example/" ++ name)%string
    ("https://example.org/" ++ name)%string
    ("https://thumb.example/" ++ name)%string 640 480.

(** An entry without dimensions: it fails validation. *)
Definition broken_entry : raw_entry :=
  mkRaw (Some "broken") (Some "https://img.example/broken") None None None None.

(** The scenario of the specification: five valid records and an invalid
    one over two pages. *)
Definition first_page : page_data raw_entry :=
  mkPage (Some [cat_entry "a"; cat_entry "b"; cat_entry "c"]) true.

Definition two_pages : list (string * page_data raw_entry) :=
  [ ("0", first_page);
    ("3", mkPage (Some [broken_entry; cat_entry "d"; cat_entry "e"]) false) ].

(** One page with a next-page indicator and two valid records. *)
Definition one_page : list (string * page_data raw_entry) :=
  [ ("0", mkPage (Some [cat_entry "a"; broken_entry; cat_entry "b"]) true) ].

Definition cats_params : Z -> params :=
  search_params "cats" "wt-wt" "moderate" no_filters "4-987-abc".

Definition search_cats (pages : list (string * page_data raw_entry))
    (max_results : option Z) (fuel : nat)
    : list (event image_result) * outcome :=
  asearch validate_entry (serve pages) post_token "cats" max_results
    "wt-wt" "moderate" no_filters fuel.

(** ** The scraper, as the specification words it *)


(** A page with five image tags: one has an empty source, one has none, and
    two have the same source. *)
Definition gallery_url : string := "https://example.org/gallery/".

Definition gallery_markup : string :=
  "<img src='a.png'><img src=''><img><img src='b.png'><img src='a.png'>".

Definition gallery_tags : list (option string) :=
  [Some "a.png"; Some ""; None; Some "b.png"; Some "a.png"].

Definition gallery_find_all_img (text : string) : result (list (option string)) :=
  if String.eqb text gallery_markup then Ok gallery_tags
  else Raise (OtherError "ParserRejectedMarkup").

(** [urljoin] on a base that ends in a slash and a relative reference
    without dots or slashes: the reference is appended. *)
Definition gallery_urljoin (base ref : string) : result string :=
  Ok (base ++ ref)%string.


(** ** [Client.__init__] *)

(** A [dict] with string keys and values, as its items in insertion order;
    the keys of a dict are distinct. *)
Definition dict : Type := list (string * string).

(** [d.get(key)] *)
Fixpoint dict_lookup (key : string) (d : dict) : option string :=
  match d with
  | [] => None
  | (k, v) :: d' => if String.eqb k key then Some v else dict_lookup key d'
  end.

(** [d[key] = value]: an existing key keeps its place, a new one goes last. *)
Fixpoint dict_set (key value : string) (d : dict) : dict :=
  match d with
  | [] => [(key, value)]
  | (k, v) :: d' =>
      if String.eqb k key then (k, value) :: d'
      else (k, v) :: dict_set key value d'
  end.

(** [d.update(h)] *)
Definition dict_update (d h : dict) : dict :=
  fold_left (fun acc kv => dict_set (fst kv) (snd kv) acc) h d.

Definition default_headers : dict :=
  [ ("User-Agent",
     "Mozilla/5.0 (Windows NT 10.0; Win64; x64) AppleWebKit/537.36 (KHTML, like Gecko) Chrome/117.0.0.0 Safari/537.36");
    ("Accept",
     "text/html,application/xhtml+xml,application/xml;q=0.9,image/webp,*/*;q=0.8");
    ("Accept-Language", "en-US,en;q=0.9");
    ("Referer", "https://duckduckgo.com/");
    ("DNT", "1");
    ("Connection", "keep-alive");
    ("Upgrade-Insecure-Requests", "1") ].

(** Truthiness of an [Optional[dict]]: [None] and the empty dict are falsy. *)
Definition truthy_dict (o : option dict) : bool :=
  match o with
  | None | Some [] => false
  | Some (_ :: _) => true
  end.

(** The keyword arguments with which [httpx.AsyncClient] is built;
    [kw_proxies] is [None] when the argument is not passed. *)
Record async_client_args : Type := mkClientArgs {
  kw_headers : dict;
  kw_proxies : option dict;
  kw_timeout : Z;
  kw_http2 : bool
}.

(** [Client.__init__(headers, proxies, timeout)] *)
Definition init (headers proxies : option dict) (timeout : Z)
    : async_client_args :=
  let merged :=
    if truthy_dict headers then
      match headers with
      | Some h => dict_update default_headers h
      | None => default_headers
      end
    else default_headers in
  match proxies with
  | Some px => mkClientArgs merged (Some px) timeout true
  | None => mkClientArgs merged None timeout true
  end.

(** ** The pages behind a run *)

(** The raw entries of the page that answers a request: none when the
    request fails, the body does not decode or the results are missing. *)
Definition page_entries {RawEntry : Type}
    (get : params -> result (response (result (page_data RawEntry))))
    (p : params) : list RawEntry :=
  match checked_request (get p) with
  | Ok r =>
      match payload r with
      | Ok data =>
          match results data with
          | Some rs => rs
          | None => []
          end
      | Raise _ => []
      end
  | Raise _ => []
  end.

(** Each offset of the list is the one before it plus the size of the page
    found there, and that page is not empty. *)
Fixpoint follows {RawEntry : Type}
    (get : params -> result (response (result (page_data RawEntry))))
    (mk : Z -> params) (offset : Z) (offsets : list Z) : Prop :=
  match offsets with
  | [] => True
  | o :: rest =>
      page_entries get (mk offset) <> []
      /\ o = (offset + Z.of_nat (List.length (page_entries get (mk offset))))%Z
      /\ follows get mk o rest
  end.



(** The files opened for writing. *)
Fixpoint opened (effects : list effect) : list string :=
  match effects with
  | [] => []
  | OpenWb p :: rest => p :: opened rest
  | _ :: rest => opened rest
  end.

(** No character of [s] is [c]. *)
Fixpoint lacks (c : ascii) (s : string) : bool :=
  match s with
  | EmptyString => true
  | String x s' => negb (Ascii.eqb x c) && lacks c s'
  end.

(** ** The sample script [sample/download.py] *)

Definition SEARCH_QUERY : string := "Red Panda".
Definition MAX_IMAGES_TO_DOWNLOAD : Z := 10.
Definition OUTPUT_DIR : string := "image_downloads".
Definition MIN_PIXELS : Z := 1000000.

(** The lines that [main] prints, each given by the values it formats.
    [PrintHeader] stands for the six lines printed before the search and
    [PrintComplete] for the two printed after it. *)
Inductive printed : Type :=
| PrintHeader
| PrintReached
| PrintFound (title : string) (width height : Z)
| PrintSkipping
| PrintSource (url : string)
| PrintAttempting
| PrintSuccess (count : Z)
| PrintDownloadFailed (e : exn)
| PrintDownloadUnexpected (e : exn)
| PrintSearchError (e : exn)
| PrintCritical (e : exn)
| PrintComplete (count : Z).

Section Sample.

(** The record class and the exception base class come from modules that are
    not among the sources: the attributes that [main] reads and
    [isinstance(e, DDGSearchException)] are parameters. *)
Variable RawEntry : Type.
Variable ImageResult : Type.
Variable model_validate : RawEntry -> result ImageResult.
Variable result_title : ImageResult -> string.
Variable result_width : ImageResult -> Z.
Variable result_height : ImageResult -> Z.
Variable result_image_url : ImageResult -> string.
Variable is_DDGSearchException : exn -> bool.

Variable post : string -> result (response (result string)).
Variable get : params -> result (response (result (page_data RawEntry))).
Variable stream : string -> result (response stream_body).

(** The [try] statement around [client.download] for one result: what is
    printed, what happens on disk and the new [downloaded_count]. *)
Definition attempt_download (downloaded_count : Z) (r : ImageResult)
    : list printed * list effect * Z :=
  let '(effects, outcome) := download stream (result_image_url r) OUTPUT_DIR None in
  match outcome with
  | Ok _ =>
      ([PrintAttempting; PrintSuccess (downloaded_count + 1)], effects,
       (downloaded_count + 1)%Z)
  | Raise e =>
      if is_DDGSearchException e then
        ([PrintAttempting; PrintDownloadFailed e], effects, downloaded_count)
      else
        ([PrintAttempting; PrintDownloadUnexpected e], effects, downloaded_count)
  end.

(** The [async for] loop over the generator.  The requests of the generator
    are not seen by the loop; the last component tells whether the loop was
    left by [break]. *)
Fixpoint main_loop (downloaded_count : Z) (tr : list (event ImageResult))
    : list printed * list effect * Z * bool :=
  match tr with
  | [] => ([], [], downloaded_count, false)
  | EvYield r :: tr' =>
      if (MAX_IMAGES_TO_DOWNLOAD <=? downloaded_count)%Z then
        ([PrintReached], [], downloaded_count, true)
      else
        let found :=
          PrintFound (result_title r) (result_width r) (result_height r) in
        if (result_width r * result_height r <? MIN_PIXELS)%Z then
          let '(out, effects, n, broke) := main_loop downloaded_count tr' in
          (found :: PrintSkipping :: out, effects, n, broke)
        else
          let '(out1, effects1, n1) := attempt_download downloaded_count r in
          let '(out, effects, n, broke) := main_loop n1 tr' in
          (found :: PrintSource (result_image_url r) :: out1 ++ out,
           effects1 ++ effects, n, broke)
  | _ :: tr' => main_loop downloaded_count tr'
  end.

(** [main] on a run of the generator: what it prints, what happens on disk
    and the final [downloaded_count]; [None] when the model cut the run of
    the generator short before the script was done with it. *)
Definition main_on (run : list (event ImageResult) * outcome)
    : option (list printed * list effect * Z) :=
  let '(out, effects, n, broke) := main_loop 0 (fst run) in
  let finish (tail : list printed) :=
    Some (PrintHeader :: out ++ tail ++ [PrintComplete n],
          MakeDirs OUTPUT_DIR :: effects, n) in
  if broke then finish []
  else
    match snd run with
    | Finished => finish []
    | Raised e =>
        if is_DDGSearchException e then finish [PrintSearchError e]
        else finish [PrintCritical e]
    | OutOfFuel => None
    end.

(** [main()]: the search is [client.asearch(SEARCH_QUERY, safesearch="-1")]. *)
Definition main (fuel : nat) : option (list printed * list effect * Z) :=
  main_on (asearch model_validate get post SEARCH_QUERY None "wt-wt" "-1"
             no_filters fuel).

End Sample.

Arguments attempt_download {ImageResult} _ _ _ _ _.
Arguments main_loop {ImageResult} _ _ _ _ _ _ _ _.
Arguments main_on {ImageResult} _ _ _ _ _ _ _.
Arguments main {RawEntry ImageResult} _ _ _ _ _ _ _ _ _ _.

(** The results that [main] tries to download: at least [MIN_PIXELS]. *)
Definition large_enough {ImageResult : Type}
    (result_width result_height : ImageResult -> Z) (r : ImageResult) : bool :=
  negb (result_width r * result_height r <? MIN_PIXELS)%Z.

Fixpoint count_attempts (out : list printed) : nat :=
  match out with
  | [] => 0
  | PrintAttempting :: out' => S (count_attempts out')
  | _ :: out' => count_attempts out'
  end.

Fixpoint count_successes (out : list printed) : nat :=
  match out with
  | [] => 0
  | PrintSuccess _ :: out' => S (count_successes out')
  | _ :: out' => count_successes out'
  end.



(** The exception classes of the package, for the examples taken to be the
    subclasses of [DDGSearchException]. *)
Definition is_package_error (e : exn) : bool :=
  match e with
  | NetworkError | VQDTokenError | ParsingError => true
  | _ => false
  end.

(** A page with one entry of more than a megapixel and a smaller one. *)
Definition wide_entry : raw_entry :=
  mkRaw (Some "wide") (Some "https://img.example/wide.jpg")
    (Some "https://example.org/wide") (Some "https://thumb.example/wide.jpg")
    (Some 1920%Z) (Some 1080%Z).

Definition wide_page : list (string * page_data raw_entry) :=
  [ ("0", mkPage (Some [wide_entry; cat_entry "a"]) false) ].

(** A page that the parser of the gallery example rejects. *)
Definition plain_get (_ : string) : result (response string) :=
  Ok (mkResponse 200 "<p>no images</p>").

(** * Properties *)

(** ** Strings *)

Lemma lower_char_idempotent (c : ascii) : lower_char (lower_char c) = lower_char c.
Proof. destruct c as [[] [] [] [] [] [] [] []]; reflexivity. Qed.

Lemma lower_idempotent (s : string) : lower (lower s) = lower s.
Proof.
  induction s as [|c s IH]; simpl.
  - reflexivity.
  - now rewrite lower_char_idempotent, IH.
Qed.

Lemma split_not_nil (sep : ascii) (s : string) : split sep s <> [].
Proof.
  destruct s as [|c s]; simpl.
  - discriminate.
  - destruct (Ascii.eqb c sep); [discriminate|].
    destruct (split sep s); discriminate.
Qed.

(** ** The safe-search code *)

Lemma dict_get_safesearch (key : string) :
  dict_get safesearch_map key "-1" =
  if String.eqb "on" key then "1"
  else if String.eqb "off" key then "-2" else "-1".
Proof.
  unfold safesearch_map; cbn [dict_get].
  destruct (String.eqb "on" key); [reflexivity|].
  destruct (String.eqb_spec "moderate" key) as [<-|_]; reflexivity.
Qed.

Lemma p_value_lower (s : string) :
  p_value s =
  if String.eqb "on" (lower s) then "1"
  else if String.eqb "off" (lower s) then "-2" else "-1".
Proof. unfold p_value. apply dict_get_safesearch. Qed.

(** C4, as stated, fails: the claim sends every string other than the three
    table keys to the default -1, but the upper-case string ON, which is none
    of the three keys, is sent to 1. *)
Lemma p_value_upper_on_not_default :
  "ON" <> "on" /\ "ON" <> "moderate" /\ "ON" <> "off" /\
  p_value "ON" = "1" /\ p_value "ON" <> "-1".
Proof. repeat split; try discriminate; reflexivity. Qed.

(** C4 (amended): the provider code sent as parameter p is 1 for on, -1 for
    moderate, -2 for off, and -1 (the default) for every string whose
    lower-case form is none of these three. *)
Theorem p_value_table :
  p_value "on" = "1" /\ p_value "moderate" = "-1" /\ p_value "off" = "-2" /\
  forall s : string,
    lower s <> "on" -> lower s <> "moderate" -> lower s <> "off" ->
    p_value s = "-1".
Proof.
  repeat split.
  intros s Hon _ Hoff. rewrite p_value_lower.
  destruct (String.eqb_spec "on" (lower s)) as [E|_]; [now elim Hon|].
  destruct (String.eqb_spec "off" (lower s)) as [E|_]; [now elim Hoff|].
  reflexivity.
Qed.

Lemma p_value_table_witness :
  lower "Strict" <> "on" /\ lower "Strict" <> "moderate" /\
  lower "Strict" <> "off" /\ p_value "Strict" = "-1".
Proof.
  split; [discriminate|]. split; [discriminate|]. split; [discriminate|].
  apply (proj2 (proj2 (proj2 p_value_table))); discriminate.
Defined.

(** C10: the safe-search mapping is case-insensitive.  The provider code
    depends on the input only through its lower-case form: two inputs with
    the same lower-case form get the same code, and an input gets the code of
    its lower-case form; so ON gives 1, OFF gives -2 and Moderate gives -1. *)
Theorem p_value_case_insensitive :
  (forall s t : string, lower s = lower t -> p_value s = p_value t) /\
  (forall s : string, p_value s = p_value (lower s)) /\
  p_value "ON" = "1" /\ p_value "OFF" = "-2" /\ p_value "Moderate" = "-1".
Proof.
  repeat split.
  - intros s t E. unfold p_value. now rewrite E.
  - intros s. unfold p_value. now rewrite lower_idempotent.
Qed.

Lemma p_value_case_insensitive_witness :
  lower "oFf" = lower "OfF" /\ p_value "oFf" = p_value "OfF".
Proof.
  split; [reflexivity|].
  apply (proj1 p_value_case_insensitive). reflexivity.
Defined.

(** ** The filter string *)

Lemma truthy_rendering (key s : string) : truthy (key ++ ":" ++ s) = true.
Proof. destruct key; reflexivity. Qed.

Lemma filter_render (key : string) (v : option string) :
  List.filter truthy [render key v] = present_render key v.
Proof.
  unfold render, present_render, truthy_opt, spec_render.
  destruct v as [s|]; [|reflexivity].
  destruct (truthy s); [|reflexivity].
  cbn [List.filter]. now rewrite truthy_rendering.
Qed.

Lemma f_value_present_fields (fs : search_filters) :
  f_value fs = join "," (present_fields fs).
Proof.
  unfold f_value, filters, present_fields. f_equal.
  repeat match goal with
         | |- List.filter truthy (?x :: ?y :: ?l) = _ =>
             change (x :: y :: l) with ([x] ++ y :: l);
             rewrite filter_app, filter_render; f_equal
         end.
  apply filter_render.
Qed.

Lemma comma_free_app (p q : string) :
  comma_free (p ++ q) = comma_free p && comma_free q.
Proof.
  induction p as [|c p IH]; simpl; [reflexivity|].
  rewrite IH. now rewrite andb_assoc.
Qed.

Lemma clean_piece_leading (p r : string) :
  clean_piece p = true -> leading_comma (p ++ r) = false.
Proof.
  unfold clean_piece. destruct p as [|c p]; simpl; [discriminate|].
  destruct (is_comma c); [discriminate|reflexivity].
Qed.

Lemma truthy_app_r (p r : string) : truthy r = true -> truthy (p ++ r) = true.
Proof. destruct p; simpl; auto. Qed.

Lemma trailing_comma_app (p r : string) :
  truthy r = true -> trailing_comma (p ++ r) = trailing_comma r.
Proof.
  intros Hr. induction p as [|c p IH]; [reflexivity|].
  change ((String c p ++ r)%string) with (String c (p ++ r)).
  pose proof (truthy_app_r p r Hr) as Hne.
  cbn [trailing_comma]. destruct (p ++ r)%string; [discriminate|exact IH].
Qed.

Lemma doubled_comma_app (p r : string) :
  comma_free p = true -> doubled_comma (p ++ r) = doubled_comma r.
Proof.
  induction p as [|c p IH]; [reflexivity|].
  simpl. destruct (is_comma c); simpl; [discriminate|exact IH].
Qed.

Lemma comma_free_trailing (p : string) :
  comma_free p = true -> trailing_comma p = false.
Proof.
  induction p as [|c p IH]; [reflexivity|].
  simpl. destruct (is_comma c); simpl; [discriminate|].
  intros H. destruct p; [reflexivity|]. now apply IH.
Qed.

Lemma comma_free_doubled (p : string) :
  comma_free p = true -> doubled_comma p = false.
Proof.
  induction p as [|c p IH]; [reflexivity|].
  simpl. destruct (is_comma c); simpl; [discriminate|exact IH].
Qed.

(** Joining clean pieces with commas leaves no stray comma. *)
Lemma join_clean_pieces (p : string) (l : list string) :
  clean_piece p = true -> forallb clean_piece l = true ->
  truthy (join "," (p :: l)) = true /\
  leading_comma (join "," (p :: l)) = false /\
  trailing_comma (join "," (p :: l)) = false /\
  doubled_comma (join "," (p :: l)) = false.
Proof.
  revert p. induction l as [|q l IH]; intros p Hp Hl.
  - unfold join; cbn [concat].
    pose proof Hp as Hp'. unfold clean_piece in Hp'.
    apply andb_true_iff in Hp' as [Ht Hc].
    rewrite Ht, comma_free_trailing, comma_free_doubled by exact Hc.
    repeat split. destruct p as [|c p]; [discriminate|].
    simpl in Hc |- *. now destruct (is_comma c).
  - cbn [forallb] in Hl. apply andb_true_iff in Hl as [Hq Hl].
    destruct (IH q Hq Hl) as (Ht & Hlead & Htrail & Hdbl).
    change (join "," (p :: q :: l)) with (p ++ String "," (join "," (q :: l)))%string.
    pose proof Hp as Hp'. unfold clean_piece in Hp'.
    apply andb_true_iff in Hp' as [Htp Hcp].
    repeat split.
    + apply truthy_app_r. reflexivity.
    + now apply clean_piece_leading.
    + rewrite trailing_comma_app by reflexivity.
      cbn [trailing_comma]. destruct (join "," (q :: l)); [discriminate|exact Htrail].
    + rewrite doubled_comma_app by exact Hcp.
      cbn [doubled_comma]. rewrite Hlead, Hdbl. reflexivity.
Qed.

Lemma join_clean_no_stray (l : list string) :
  forallb clean_piece l = true -> stray_commas (join "," l) = false.
Proof.
  destruct l as [|p l]; [reflexivity|].
  cbn [forallb]. intros H. apply andb_true_iff in H as [Hp Hl].
  destruct (join_clean_pieces p l Hp Hl) as (_ & H1 & H2 & H3).
  unfold stray_commas. now rewrite H1, H2, H3.
Qed.

Lemma present_render_clean (key : string) (v : option string) :
  clean_piece key = true -> value_comma_free v = true ->
  forallb clean_piece (present_render key v) = true.
Proof.
  unfold present_render, truthy_opt, spec_render, value_comma_free.
  intros Hk Hv. destruct v as [s|]; [|reflexivity].
  destruct (truthy s); [|reflexivity].
  cbn [forallb]. rewrite andb_true_r. unfold clean_piece.
  rewrite truthy_rendering. rewrite !comma_free_app, Hv.
  unfold clean_piece in Hk. apply andb_true_iff in Hk as [_ ->]. reflexivity.
Qed.

Lemma present_fields_clean (fs : search_filters) :
  values_comma_free fs = true -> forallb clean_piece (present_fields fs) = true.
Proof.
  unfold values_comma_free, present_fields. intros H.
  repeat (apply andb_true_iff in H; destruct H as [H ?]).
  rewrite !forallb_app.
  rewrite !present_render_clean by (assumption || reflexivity).
  reflexivity.
Qed.

(** C5, as stated, fails twice on one input: with time passed as the empty
    string and license passed as cc followed by a comma, the time field is
    passed but not rendered, so the filter string is not the join of the
    renderings of the fields passed, and the string ends in a comma. *)
Lemma f_value_empty_time_counterexample :
  f_value filters_empty_time = "license:cc," /\
  spec_f_value filters_empty_time = "time:,license:cc," /\
  f_value filters_empty_time <> spec_f_value filters_empty_time /\
  trailing_comma (f_value filters_empty_time) = true.
Proof. repeat split; discriminate. Qed.

(** C5 (amended): a filter field counts as present when it is passed and is
    not the empty string.  For every combination of fields the filter string
    is the comma-join of the key:value renderings of exactly the present
    fields, in the order time, size, color, type, layout, license; when no
    value contains a comma it has no leading, trailing or doubled comma; and
    time Week with size Large gives time:Week,size:Large. *)
Theorem f_value_correct (fs : search_filters) :
  f_value fs = join "," (present_fields fs) /\
  (values_comma_free fs = true -> stray_commas (f_value fs) = false) /\
  f_value filters_week_large = "time:Week,size:Large".
Proof.
  split; [apply f_value_present_fields|]. split; [|reflexivity].
  intros H. rewrite f_value_present_fields.
  apply join_clean_no_stray. now apply present_fields_clean.
Qed.

Lemma f_value_correct_witness :
  values_comma_free filters_week_large = true /\
  stray_commas (f_value filters_week_large) = false.
Proof.
  split; [reflexivity|].
  apply (proj1 (proj2 (f_value_correct filters_week_large))). reflexivity.
Defined.

(** ** [download]: the path of the file *)

Lemma last_item_split (sep : ascii) (s : string) :
  exists seg : string, last_item (split sep s) = Ok seg.
Proof.
  unfold last_item. destruct (rev (split sep s)) as [|x l] eqn:E.
  - apply (f_equal (@rev string)) in E. rewrite rev_involutive in E.
    now apply split_not_nil in E.
  - now exists x.
Qed.

Lemma truthy_split (sep : ascii) (s : string) : truthy_val (PList (split sep s)) = true.
Proof.
  pose proof (split_not_nil sep s) as H.
  destruct (split sep s); [now elim H|reflexivity].
Qed.

(** Without a file name, [filename] is bound to the list of [split], never
    to the fallback name. *)
Lemma download_filename_is_list (url : string) (filename : option string) :
  truthy_opt filename = false ->
  exists seg : string,
    last_item (split "/" url) = Ok seg /\
    download_filename url filename = Ok (PList (split "?" seg)).
Proof.
  intros H. unfold download_filename. rewrite H. cbn [negb].
  destruct (last_item_split "/" url) as [seg Hseg].
  exists seg. split; [exact Hseg|].
  rewrite Hseg. cbn [bind]. now rewrite truthy_split.
Qed.

(** C1: the claim is that a call without a file name writes to the output
    directory joined with the last path segment of the URL, query string
    stripped, or with the fallback name.  The code does not: for every URL
    and directory, a call without a file name (none, or the empty string)
    binds the name to a list, [os.path.join] raises [TypeError], and nothing
    is requested or written. *)
Theorem download_without_filename_raises
    (stream : string -> result (response stream_body))
    (url output_dir : string) (filename : option string) :
  truthy_opt filename = false ->
  output_path url output_dir filename = Raise TypeError /\
  download stream url output_dir filename = ([], Raise TypeError).
Proof.
  intros H. destruct (download_filename_is_list url filename H) as (seg & _ & Hn).
  assert (Hp : output_path url output_dir filename = Raise TypeError).
  { unfold output_path. now rewrite Hn. }
  split; [exact Hp|]. unfold download. now rewrite Hp.
Qed.

Lemma download_without_filename_raises_witness :
  truthy_opt None = false /\
  download_filename "https://example.com/a/pic.jpg?size=large" None
    = Ok (PList ["pic.jpg"; "size=large"]) /\
  output_path "https://example.com/a/pic.jpg?size=large" "images" None
    = Raise TypeError /\
  download stream_ok "https://example.com/a/pic.jpg?size=large" "images" None
    = ([], Raise TypeError).
Proof.
  split; [reflexivity|]. split; [reflexivity|].
  apply (download_without_filename_raises stream_ok). reflexivity.
Defined.

(** With an explicit file name the body is written under the directory. *)
Example download_named_file :
  download stream_ok "https://example.com/a/pic.jpg?size=large" "images"
    (Some "cat.jpg")
  = ([MakeDirs "images"; StreamGet "https://example.com/a/pic.jpg?size=large";
      OpenWb "images/cat.jpg"; WriteChunk "images/cat.jpg" "ab";
      WriteChunk "images/cat.jpg" "cd"], Ok tt).
Proof. reflexivity. Qed.

(** ** The status check *)

(** A request that raises a subclass of [httpx.RequestError] is turned into
    [NetworkError]. *)
Lemma checked_request_transport {B : Type} (request : result (response B)) (e : exn) :
  request = Raise e -> is_RequestError e = true ->
  checked_request request = Raise NetworkError.
Proof. intros -> He. unfold checked_request; cbn. now rewrite He. Qed.

(** A response with a status outside 2xx makes [raise_for_status] raise
    [HTTPStatusError], which the handler does not catch. *)
Lemma checked_request_status {B : Type} (request : result (response B))
    (r : response B) :
  request = Ok r -> is_success r = false ->
  checked_request request = Raise HTTPStatusError.
Proof.
  intros -> Hs. unfold checked_request, raise_for_status; cbn. now rewrite Hs.
Qed.

Lemma checked_request_success {B : Type} (request : result (response B))
    (r : response B) :
  request = Ok r -> is_success r = true -> checked_request request = Ok r.
Proof.
  intros -> Hs. unfold checked_request, raise_for_status; cbn. now rewrite Hs.
Qed.

(** C2: the claim is that a non-success status makes the token fetch, a
    search page request and a download fail with [NetworkError], as a
    request that cannot complete does.  The code does not: in each of the
    three the status error of httpx propagates as [HTTPStatusError], while a
    request that cannot complete gives [NetworkError]. *)
Theorem non_success_status_raises_HTTPStatusError :
  (forall (post : string -> result (response (result string)))
          (keywords : string) (r : response (result string)),
      post keywords = Ok r -> is_success r = false ->
      _get_vqd post keywords = Raise HTTPStatusError) /\
  (forall (RawEntry ImageResult : Type)
          (model_validate : RawEntry -> result ImageResult)
          (get : params -> result (response (result (page_data RawEntry))))
          (max_results : option Z) (mk : Z -> params)
          (fuel : nat) (offset yielded : Z)
          (r : response (result (page_data RawEntry))),
      get (mk offset) = Ok r -> is_success r = false ->
      search_loop model_validate get max_results mk (S fuel) offset yielded
      = ([EvGet (mk offset)], Raised HTTPStatusError)) /\
  (forall (stream : string -> result (response stream_body))
          (url output_dir name : string) (r : response stream_body),
      truthy name = true -> stream url = Ok r -> is_success r = false ->
      snd (download stream url output_dir (Some name)) = Raise HTTPStatusError) /\
  (forall (post : string -> result (response (result string)))
          (keywords : string) (e : exn),
      post keywords = Raise e -> is_RequestError e = true ->
      _get_vqd post keywords = Raise NetworkError).
Proof.
  repeat split.
  - intros post keywords r Hr Hs. unfold _get_vqd.
    now rewrite (checked_request_status _ r Hr Hs).
  - intros RawEntry ImageResult model_validate get max_results mk fuel offset
      yielded r Hr Hs.
    cbn [search_loop]. now rewrite (checked_request_status _ r Hr Hs).
  - intros stream url output_dir name r Hn Hr Hs. unfold download, output_path.
    unfold download_filename, truthy_opt. rewrite Hn. cbn [negb bind].
    destruct (os_path_join output_dir (PStr name)) as [path|e] eqn:Ej.
    + rewrite Hr. unfold raise_for_status. rewrite Hs. reflexivity.
    + unfold os_path_join in Ej.
      destruct (starts_with_slash name); [discriminate|].
      destruct (negb (truthy output_dir) || ends_with_slash output_dir);
        discriminate.
  - intros post keywords e Hr He. unfold _get_vqd.
    now rewrite (checked_request_transport _ e Hr He).
Qed.

Lemma non_success_status_raises_HTTPStatusError_witness :
  is_success (mkResponse 404 (Ok "vqd='4-1'")) = false /\
  _get_vqd post_404 "cats" = Raise HTTPStatusError /\
  search_loop validate_entry get_404 None cats_params 1 0 0
  = ([EvGet (cats_params 0)], Raised HTTPStatusError) /\
  snd (download stream_404 "https://example.com/pic.jpg" "images" (Some "pic.jpg"))
  = Raise HTTPStatusError.
Proof.
  split; [reflexivity|]. split; [|split].
  - apply (proj1 non_success_status_raises_HTTPStatusError post_404 "cats"
             (mkResponse 404 (Ok "vqd='4-1'"))); reflexivity.
  - apply (proj1 (proj2 non_success_status_raises_HTTPStatusError)
             raw_entry image_result validate_entry get_404 None cats_params
             0 0%Z 0%Z (mkResponse 404 (Ok (mkPage None false)))); reflexivity.
  - apply (proj1 (proj2 (proj2 non_success_status_raises_HTTPStatusError))
             stream_404 "https://example.com/pic.jpg" "images" "pic.jpg"
             (mkResponse 404 ([], None))); reflexivity.
Defined.

(** ** The token pattern *)

(** What a successful run consumed and how the rest was matched. *)
Lemma greedy1_sound (cls : ascii -> bool) (k : string -> option (list string))
    (s w : string) (caps : list string) :
  greedy1 cls k s = Some (w, caps) ->
  exists rest : string,
    s = (w ++ rest)%string /\ truthy w = true /\ all_chars cls w = true /\
    k rest = Some caps.
Proof.
  revert w caps. induction s as [|c s IH]; intros w caps; simpl; [discriminate|].
  destruct (cls c) eqn:Hc; [|discriminate].
  destruct (greedy1 cls k s) as [[w' caps']|] eqn:Hg.
  - intros H; injection H as <- <-.
    destruct (IH w' caps' eq_refl) as (rest & -> & Ht & Ha & Hk).
    exists rest. simpl. rewrite Hc, Ha. auto.
  - destruct (k s) as [caps'|] eqn:Hk; [|discriminate].
    intros H; injection H as <- <-.
    exists s. simpl. rewrite Hc. auto.
Qed.

(** A run cannot start where the class does not. *)
Lemma greedy1_no_start (cls : ascii -> bool) (k : string -> option (list string))
    (s : string) :
  (forall c s', s = String c s' -> cls c = false) -> greedy1 cls k s = None.
Proof.
  intros H. destruct s as [|c s]; [reflexivity|].
  simpl. now rewrite (H c s eq_refl).
Qed.

(** When the continuation refuses every string that starts in the class, the
    run is the whole stretch of class characters: there is nothing to give
    back. *)
Lemma greedy1_complete (cls : ascii -> bool) (k : string -> option (list string))
    (w rest : string) (caps : list string) :
  (forall c s', cls c = true -> k (String c s') = None) ->
  truthy w = true -> all_chars cls w = true -> k rest = Some caps ->
  greedy1 cls k (w ++ rest) = Some (w, caps).
Proof.
  intros Hk. induction w as [|c w IH]; intros Ht Ha Hr; [discriminate|].
  simpl in Ha |- *. apply andb_true_iff in Ha as [Hc Ha]. rewrite Hc.
  destruct w as [|c' w].
  - simpl. rewrite greedy1_no_start, Hr; [reflexivity|].
    intros c0 s0 ->. destruct (cls c0) eqn:E; [|reflexivity].
    rewrite (Hk c0 s0 E) in Hr. discriminate.
  - now rewrite IH.
Qed.

Lemma token_char_not_quote (c : ascii) :
  is_token_char c = true -> is_quote c = false.
Proof. destruct c as [[] [] [] [] [] [] [] []]; cbv; congruence. Qed.

Lemma match_here_quote (s : string) (caps : list string) :
  match_here [Plain (One is_quote)] s = Some caps <->
  exists (q : ascii) (post : string),
    s = String q post /\ is_quote q = true /\ caps = [].
Proof.
  cbn [match_here atom_of capture]. split.
  - destruct s as [|q post]; [discriminate|].
    destruct (is_quote q) eqn:Hq; [|discriminate].
    intros H; injection H as <-. now exists q, post.
  - intros (q & post & -> & Hq & ->). now rewrite Hq.
Qed.

Lemma match_here_quote_token_char (c : ascii) (s : string) :
  is_token_char c = true -> match_here [Plain (One is_quote)] (String c s) = None.
Proof.
  intros H. cbn [match_here atom_of]. now rewrite (token_char_not_quote c H).
Qed.

(** One literal character of the pattern. *)
Lemma match_here_lit (c : ascii) (pat : list item) (s : string)
    (caps : list string) :
  match_here (lit c :: pat) s = Some caps <->
  exists s' : string, s = String c s' /\ match_here pat s' = Some caps.
Proof.
  unfold lit. cbn [match_here atom_of capture]. split.
  - destruct s as [|x s']; [discriminate|].
    destruct (Ascii.eqb_spec c x) as [<-|_]; [|discriminate].
    destruct (match_here pat s') as [caps'|] eqn:E; [|discriminate].
    intros H; injection H as <-. now exists s'.
  - intros (s' & -> & H). now rewrite Ascii.eqb_refl, H.
Qed.

(** The tail of the pattern after the four literal characters. *)
Lemma match_here_quoted_token (s : string) (caps : list string) :
  match_here [Plain (One is_quote); Group (Many1 is_token_char);
              Plain (One is_quote)] s = Some caps <->
  exists (q1 q2 : ascii) (tok post : string),
    s = String q1 (tok ++ String q2 post) /\ caps = [tok] /\
    is_quote q1 = true /\ is_quote q2 = true /\
    truthy tok = true /\ all_chars is_token_char tok = true.
Proof.
  split.
  - cbn [match_here atom_of capture].
    change (fun s0 : string =>
              match s0 with
              | EmptyString => None
              | String c s' =>
                  if is_quote c then Some [] else None
              end)
      with (match_here [Plain (One is_quote)]).
    destruct s as [|q1 s]; [discriminate|].
    destruct (is_quote q1) eqn:Hq1; [|discriminate].
    destruct (greedy1 is_token_char (match_here [Plain (One is_quote)]) s)
      as [[tok caps']|] eqn:Hg; [|discriminate].
    intros H; injection H as <-.
    apply greedy1_sound in Hg as (rest & -> & Ht & Ha & Hk).
    apply match_here_quote in Hk as (q2 & post & -> & Hq2 & ->).
    now exists q1, q2, tok, post.
  - intros (q1 & q2 & tok & post & -> & -> & Hq1 & Hq2 & Ht & Ha).
    cbn [match_here atom_of capture]. rewrite Hq1.
    change (fun s0 : string =>
              match s0 with
              | EmptyString => None
              | String c s' =>
                  if is_quote c then Some [] else None
              end)
      with (match_here [Plain (One is_quote)]).
    rewrite (greedy1_complete is_token_char _ tok (String q2 post) []);
      auto using match_here_quote_token_char.
    apply match_here_quote. now exists q2, post.
Qed.

(** The matcher on the token pattern against the declarative reading. *)
Lemma match_here_vqd (s : string) (caps : list string) :
  match_here vqd_pattern s = Some caps <->
  exists tok : string, caps = [tok] /\ vqd_at s "" tok.
Proof.
  unfold vqd_pattern, vqd_at. split.
  - intros H.
    apply match_here_lit in H as (s1 & -> & H).
    apply match_here_lit in H as (s2 & -> & H).
    apply match_here_lit in H as (s3 & -> & H).
    apply match_here_lit in H as (s4 & -> & H).
    apply match_here_quoted_token in H
      as (q1 & q2 & tok & post & -> & -> & Hq1 & Hq2 & Ht & Ha).
    exists tok. split; [reflexivity|]. now exists q1, q2, post.
  - intros (tok & -> & q1 & q2 & post & -> & Hq1 & Hq2 & Ht & Ha).
    cbn [append].
    apply match_here_lit; eexists; split; [reflexivity|].
    apply match_here_lit; eexists; split; [reflexivity|].
    apply match_here_lit; eexists; split; [reflexivity|].
    apply match_here_lit; eexists; split; [reflexivity|].
    apply match_here_quoted_token. now exists q1, q2, tok, post.
Qed.

(** [re_search] finds a match exactly when some suffix matches, and then it
    is the match of the longest such suffix (the leftmost start). *)
Lemma re_search_some (pat : list item) (s : string) (caps : list string) :
  re_search pat s = Some caps ->
  exists pre post : string,
    s = (pre ++ post)%string /\ match_here pat post = Some caps /\
    forall pre' post' : string,
      s = (pre' ++ post')%string -> String.length pre' < String.length pre ->
      match_here pat post' = None.
Proof.
  revert caps. induction s as [|c s IH]; intros caps H.
  - cbn [re_search] in H.
    destruct (match_here pat "") as [caps'|] eqn:E; [|discriminate].
    injection H as <-. exists "", "". repeat split; auto.
    intros pre' post' _ Hl. inversion Hl.
  - cbn [re_search] in H.
    destruct (match_here pat (String c s)) as [caps'|] eqn:E.
    + injection H as <-. exists "", (String c s). repeat split; auto.
      intros pre' post' _ Hl. inversion Hl.
    + destruct (IH caps H) as (pre & post & -> & Hm & Hmin).
      exists (String c pre), post. repeat split; auto.
      intros pre' post' Heq Hl. destruct pre' as [|c' pre'].
      * simpl in Heq. now rewrite <- Heq.
      * simpl in Heq. injection Heq as _ Heq.
        apply (Hmin pre' post' Heq). simpl in Hl. lia.
Qed.

Lemma re_search_none (pat : list item) (s : string) :
  re_search pat s = None ->
  forall pre post : string, s = (pre ++ post)%string -> match_here pat post = None.
Proof.
  induction s as [|c s IH]; intros H pre post Heq.
  - destruct pre; [|discriminate]. simpl in Heq. subst post.
    cbn [re_search] in H. now destruct (match_here pat "").
  - cbn [re_search] in H.
    destruct (match_here pat (String c s)) as [caps'|] eqn:E; [discriminate|].
    destruct pre as [|c' pre].
    + simpl in Heq. now subst post.
    + simpl in Heq. injection Heq as _ Heq. now apply (IH H pre post).
Qed.

Lemma re_search_first (pat : list item) (pre post : string) (caps : list string) :
  match_here pat post = Some caps ->
  (forall pre' post' : string,
      (pre ++ post = pre' ++ post')%string ->
      String.length pre' < String.length pre -> match_here pat post' = None) ->
  re_search pat (pre ++ post) = Some caps.
Proof.
  intros Hm. induction pre as [|c pre IH]; intros Hmin.
  - simpl. destruct post; cbn [re_search]; now rewrite Hm.
  - change ((String c pre ++ post)%string) with (String c (pre ++ post)).
    cbn [re_search].
    rewrite (Hmin "" (String c (pre ++ post))); [|reflexivity|simpl; lia].
    apply IH. intros pre' post' Heq Hl.
    apply (Hmin (String c pre') post'); simpl; [now rewrite Heq|lia].
Qed.

Lemma vqd_at_match (text pre tok : string) :
  vqd_at text pre tok <->
  exists post : string,
    text = (pre ++ post)%string /\ match_here vqd_pattern post = Some [tok].
Proof.
  split.
  - intros (q1 & q2 & post & -> & H).
    exists ("vqd=" ++ String q1 (tok ++ String q2 post))%string.
    split; [reflexivity|]. apply match_here_vqd.
    exists tok. split; [reflexivity|]. now exists q1, q2, post.
  - intros (post & -> & H). apply match_here_vqd in H as (tok' & E & H).
    injection E as <-. destruct H as (q1 & q2 & post' & -> & H).
    now exists q1, q2, post'.
Qed.

Lemma re_search_vqd_first (text tok : string) :
  re_search vqd_pattern text = Some [tok] <-> first_vqd text tok.
Proof.
  split.
  - intros H. apply re_search_some in H as (pre & post & -> & Hm & Hmin).
    exists pre. split.
    + apply vqd_at_match. now exists post.
    + intros pre' tok' H'. apply vqd_at_match in H' as (post' & Heq & Hm').
      destruct (Nat.le_gt_cases (String.length pre) (String.length pre'))
        as [Hle|Hlt]; [exact Hle|].
      rewrite (Hmin pre' post' Heq Hlt) in Hm'. discriminate.
  - intros (pre & Hat & Hmin). apply vqd_at_match in Hat as (post & -> & Hm).
    apply re_search_first; [exact Hm|].
    intros pre' post' Heq Hlt.
    destruct (match_here vqd_pattern post') as [caps|] eqn:E; [|reflexivity].
    apply match_here_vqd in E as E'. destruct E' as (tok' & -> & _).
    assert (Hat : vqd_at (pre ++ post) pre' tok')
      by (apply vqd_at_match; now exists post').
    apply Hmin in Hat. lia.
Qed.

Lemma re_search_vqd_single (text : string) (caps : list string) :
  re_search vqd_pattern text = Some caps -> exists tok : string, caps = [tok].
Proof.
  intros H. apply re_search_some in H as (pre & post & _ & Hm & _).
  apply match_here_vqd in Hm as (tok & -> & _). now exists tok.
Qed.

Lemma re_search_vqd_none (text : string) :
  re_search vqd_pattern text = None <->
  forall pre tok : string, ~ vqd_at text pre tok.
Proof.
  split.
  - intros H pre tok Hat. apply vqd_at_match in Hat as (post & Heq & Hm).
    rewrite (re_search_none _ _ H pre post Heq) in Hm. discriminate.
  - intros H. destruct (re_search vqd_pattern text) as [caps|] eqn:E;
      [|reflexivity].
    apply re_search_some in E as (pre & post & -> & Hm & _).
    apply match_here_vqd in Hm as Hm'. destruct Hm' as (tok & -> & _).
    elim (H pre tok). apply vqd_at_match. now exists post.
Qed.

(** [_get_vqd] once the request has succeeded and the body has been read. *)
Lemma get_vqd_text (post : string -> result (response (result string)))
    (keywords : string) (r : response (result string)) (text : string) :
  post keywords = Ok r -> is_success r = true -> payload r = Ok text ->
  _get_vqd post keywords =
  match re_search vqd_pattern text with
  | Some [tok] => Ok tok
  | _ => Raise VQDTokenError
  end.
Proof.
  intros Hr Hs Hp. unfold _get_vqd.
  rewrite (checked_request_success _ r Hr Hs). cbn [bind]. rewrite Hp.
  cbn [bind]. destruct (re_search vqd_pattern text) as [caps|] eqn:E;
    [|reflexivity].
  destruct (re_search_vqd_single _ _ E) as [tok ->]. reflexivity.
Qed.

(** C6: when the token request succeeds and the pattern matches in the body,
    the token fetch returns exactly the group of the leftmost match (a
    non-empty string of letters, digits and hyphens between two quotes after
    the marker); when the pattern matches nowhere, and when the body cannot
    be read, it fails with the token-extraction error. *)
Theorem get_vqd_token (post : string -> result (response (result string)))
    (keywords : string) (r : response (result string)) :
  post keywords = Ok r -> is_success r = true ->
  (forall text : string, payload r = Ok text ->
     (forall tok : string, _get_vqd post keywords = Ok tok <-> first_vqd text tok) /\
     ((exists pre tok : string, vqd_at text pre tok) ->
      exists tok : string, _get_vqd post keywords = Ok tok /\ first_vqd text tok) /\
     ((forall pre tok : string, ~ vqd_at text pre tok) ->
      _get_vqd post keywords = Raise VQDTokenError)) /\
  (forall e : exn, payload r = Raise e ->
     _get_vqd post keywords = Raise VQDTokenError).
Proof.
  intros Hr Hs. split.
  - intros text Hp. rewrite (get_vqd_text post keywords r text Hr Hs Hp).
    split; [|split].
    + intros tok. rewrite <- re_search_vqd_first.
      destruct (re_search vqd_pattern text) as [[|t [|t' l]]|]; split;
        intros H; try discriminate; now injection H as ->.
    + intros (pre & tok & Hat).
      destruct (re_search vqd_pattern text) as [caps|] eqn:E.
      * destruct (re_search_vqd_single _ _ E) as [t ->].
        exists t. split; [reflexivity|]. now apply re_search_vqd_first.
      * elim (proj1 (re_search_vqd_none text) E pre tok Hat).
    + intros H. now rewrite (proj2 (re_search_vqd_none text) H).
  - intros e Hp. unfold _get_vqd.
    rewrite (checked_request_success _ r Hr Hs). cbn [bind]. now rewrite Hp.
Qed.

Lemma get_vqd_token_witness :
  post_token "cats" = Ok (mkResponse 200 (Ok front_page)) /\
  is_success (mkResponse 200 (Ok front_page)) = true /\
  _get_vqd post_token "cats" = Ok "4-987-abc" /\
  first_vqd front_page "4-987-abc".
Proof.
  split; [reflexivity|]. split; [reflexivity|]. split; [reflexivity|].
  apply (proj1 (proj1 (get_vqd_token post_token "cats"
                         (mkResponse 200 (Ok front_page)) eq_refl eq_refl)
                  front_page eq_refl) "4-987-abc").
  reflexivity.
Defined.

(** ** The generator: one page *)

Section PageProperties.

Context {RawEntry ImageResult : Type}.
Variable model_validate : RawEntry -> result ImageResult.

Lemma take_cap_reached (max_results : option Z) (y : Z) (l : list ImageResult) :
  cap_reached max_results y = true -> take_cap max_results y l = [].
Proof.
  destruct max_results as [m|]; simpl; [|discriminate].
  intros H. apply Z.leb_le in H.
  replace (Z.to_nat (m - y)) with 0 by lia. reflexivity.
Qed.

Lemma take_cap_cons (max_results : option Z) (y : Z) (x : ImageResult)
    (l : list ImageResult) :
  cap_reached max_results y = false ->
  take_cap max_results y (x :: l) = x :: take_cap max_results (y + 1) l.
Proof.
  destruct max_results as [m|]; simpl; [|reflexivity].
  intros H. apply Z.leb_gt in H.
  replace (Z.to_nat (m - y)) with (S (Z.to_nat (m - (y + 1)))) by lia.
  reflexivity.
Qed.

Lemma take_cap_nil (max_results : option Z) (y : Z) :
  take_cap max_results y (@nil ImageResult) = [].
Proof. destruct max_results; simpl; [apply firstn_nil|reflexivity]. Qed.

Lemma cap_reached_mono (max_results : option Z) (y : Z) (n : nat) :
  cap_reached max_results y = true ->
  cap_reached max_results (y + Z.of_nat n) = true.
Proof.
  destruct max_results as [m|]; simpl; [|discriminate].
  intros H. apply Z.leb_le in H. apply Z.leb_le. lia.
Qed.

(** The records a page yields and the counter it leaves: the valid
    entries, in order, as far as the cap allows. *)
Lemma page_loop_yields (max_results : option Z) (rs : list RawEntry) (y : Z) :
  fst (page_loop model_validate max_results y rs)
  = (map EvYield (take_cap max_results y (valid_entries model_validate rs)),
     (y + Z.of_nat
            (List.length
               (take_cap max_results y (valid_entries model_validate rs))))%Z).
Proof.
  revert y. induction rs as [|res rs IH]; intros y.
  - cbn [page_loop valid_entries fst]. rewrite take_cap_nil.
    cbn [map List.length]. f_equal. lia.
  - cbn [page_loop valid_entries].
    destruct (cap_reached max_results y) eqn:Hc.
    + rewrite take_cap_reached by exact Hc. cbn [fst map List.length].
      f_equal. lia.
    + destruct (model_validate res) as [img|e]; [|apply IH].
      specialize (IH (y + 1)%Z).
      destruct (page_loop model_validate max_results (y + 1)%Z rs)
        as [[evs y'] ret].
      cbn [fst] in IH |- *. injection IH as -> ->.
      rewrite take_cap_cons by exact Hc. cbn [map List.length].
      f_equal. lia.
Qed.

(** The loop is left by [return] exactly when the cap is reached before
    the last entry of the page is looked at. *)
Lemma page_loop_returned (max_results : option Z) (rs : list RawEntry) (y : Z) :
  rs <> [] ->
  snd (page_loop model_validate max_results y rs)
  = cap_reached max_results
      (y + Z.of_nat (List.length (valid_entries model_validate (removelast rs)))).
Proof.
  revert y. induction rs as [|res rs IH]; intros y Hne; [now elim Hne|].
  cbn [page_loop].
  destruct (cap_reached max_results y) eqn:Hc.
  - cbn [snd]. symmetry. now apply cap_reached_mono.
  - destruct rs as [|res' rs].
    + cbn [removelast valid_entries List.length]. rewrite Z.add_0_r, Hc.
      destruct (model_validate res); reflexivity.
    + assert (Hne' : res' :: rs <> []) by discriminate.
      change (removelast (res :: res' :: rs))
        with (res :: removelast (res' :: rs)).
      cbn [valid_entries].
      destruct (model_validate res) as [img|e].
      * specialize (IH (y + 1)%Z Hne').
        destruct (page_loop model_validate max_results (y + 1)%Z (res' :: rs))
          as [[evs y'] ret].
        cbn [snd] in IH |- *. rewrite IH. cbn [List.length]. f_equal. lia.
      * now apply IH.
Qed.

(** An entry that fails validation leaves no trace in what a page yields. *)
Lemma valid_entries_skip (pre post : list RawEntry) (bad : RawEntry) (e : exn) :
  model_validate bad = Raise e ->
  valid_entries model_validate (pre ++ bad :: post)
  = valid_entries model_validate (pre ++ post).
Proof.
  intros Hb. induction pre as [|res pre IH]; cbn [app valid_entries].
  - now rewrite Hb.
  - now rewrite IH.
Qed.

Lemma valid_entries_app (l1 l2 : list RawEntry) :
  valid_entries model_validate (l1 ++ l2)
  = valid_entries model_validate l1 ++ valid_entries model_validate l2.
Proof.
  induction l1 as [|res l1 IH]; cbn [app valid_entries]; [reflexivity|].
  destruct (model_validate res); [cbn [app]|]; now rewrite IH.
Qed.

End PageProperties.

Lemma page_loop_return_cap {RawEntry ImageResult : Type}
    (model_validate : RawEntry -> result ImageResult)
    (max_results : option Z) (rs : list RawEntry) (y : Z) :
  snd (page_loop model_validate max_results y rs) = true ->
  cap_reached max_results
    (snd (fst (page_loop model_validate max_results y rs))) = true.
Proof.
  revert y. induction rs as [|res rs IH]; intros y; cbn [page_loop].
  - discriminate.
  - destruct (cap_reached max_results y) eqn:Hc; [intros _; exact Hc|].
    destruct (model_validate res) as [img|e]; [|apply IH].
    specialize (IH (y + 1)%Z).
    destruct (page_loop model_validate max_results (y + 1)%Z rs) as [[evs y'] ret].
    exact IH.
Qed.

(** C7, as stated, fails: in a page with a valid entry, an invalid one and a
    second valid one, read with a cap of one result, the second valid entry
    is valid and in the page but is not yielded. *)
Lemma capped_page_drops_valid_entry :
  validate_entry (cat_entry "b") = Ok (cat "b") /\
  search_cats one_page (Some 1%Z) 5
  = ([EvPost "cats"; EvGet (cats_params 0); EvYield (cat "a")], Finished) /\
  ~ In (cat "b") (yields (fst (search_cats one_page (Some 1%Z) 5))).
Proof.
  split; [reflexivity|]. split; [reflexivity|].
  intros [H|[]]. discriminate H.
Qed.

(** C7 (amended): for every page of raw entries, an entry that fails
    validation is skipped and the loop goes on with the next entry: what the
    page yields is the valid entries, in order, up to the cap on the number
    of results (all of them when there is no cap); an invalid entry changes
    neither what is yielded nor the counter, the page loop raises nothing,
    and it is left before the end of the page only when the cap is reached. *)
Theorem page_loop_skips_invalid {RawEntry ImageResult : Type}
    (model_validate : RawEntry -> result ImageResult)
    (max_results : option Z) (y : Z) (rs : list RawEntry) :
  fst (fst (page_loop model_validate max_results y rs))
  = map EvYield (take_cap max_results y (valid_entries model_validate rs)) /\
  page_loop model_validate None y rs
  = (map EvYield (valid_entries model_validate rs),
     (y + Z.of_nat (List.length (valid_entries model_validate rs)))%Z, false) /\
  (forall (pre post : list RawEntry) (bad : RawEntry) (e : exn),
      rs = pre ++ bad :: post -> model_validate bad = Raise e ->
      fst (page_loop model_validate max_results y rs)
      = fst (page_loop model_validate max_results y (pre ++ post))) /\
  (snd (page_loop model_validate max_results y rs) = true ->
   cap_reached max_results
     (snd (fst (page_loop model_validate max_results y rs))) = true).
Proof.
  split; [now rewrite page_loop_yields|]. split; [|split].
  - pose proof (page_loop_yields model_validate None rs y) as H.
    destruct rs as [|res rs]; [cbn; f_equal; f_equal; lia|].
    pose proof (page_loop_returned model_validate None (res :: rs) y) as Hr.
    destruct (page_loop model_validate None y (res :: rs)) as [[evs y'] ret].
    cbn [fst snd take_cap cap_reached] in H, Hr.
    rewrite Hr by discriminate. now injection H as -> ->.
  - intros pre post bad e -> Hb. rewrite !page_loop_yields.
    now rewrite (valid_entries_skip model_validate pre post bad e Hb).
  - apply page_loop_return_cap.
Qed.

Lemma page_loop_skips_invalid_witness :
  [cat_entry "a"; broken_entry; cat_entry "b"]
  = [cat_entry "a"] ++ broken_entry :: [cat_entry "b"] /\
  validate_entry broken_entry = Raise ValidationError /\
  fst (page_loop validate_entry (Some 5%Z) 0
         [cat_entry "a"; broken_entry; cat_entry "b"])
  = fst (page_loop validate_entry (Some 5%Z) 0 ([cat_entry "a"] ++ [cat_entry "b"])).
Proof.
  split; [reflexivity|]. split; [reflexivity|].
  apply (proj1 (proj2 (proj2
           (page_loop_skips_invalid validate_entry (Some 5%Z) 0
              [cat_entry "a"; broken_entry; cat_entry "b"])))
           [cat_entry "a"] [cat_entry "b"] broken_entry ValidationError);
    reflexivity.
Defined.

(** ** The generator: the loop over the pages *)

Section TraceProperties.

Context {ImageResult : Type}.

Lemma yields_app (a b : list (event ImageResult)) :
  yields (a ++ b) = yields a ++ yields b.
Proof.
  induction a as [|[k|p|r] a IH]; cbn [app yields]; [reflexivity| | |];
    now rewrite IH.
Qed.

Lemma yields_map (l : list ImageResult) : yields (map EvYield l) = l.
Proof. induction l as [|r l IH]; cbn [map yields]; [reflexivity|now rewrite IH]. Qed.

Lemma requests_app (a b : list (event ImageResult)) :
  requests (a ++ b) = requests a ++ requests b.
Proof.
  induction a as [|[k|p|r] a IH]; cbn [app requests]; [reflexivity| | |];
    now rewrite IH.
Qed.

Lemma requests_map (l : list ImageResult) : requests (map EvYield l) = [].
Proof. induction l as [|r l IH]; cbn [map requests]; [reflexivity|exact IH]. Qed.

Lemma gets_after_yields (l : list ImageResult) (n : nat)
    (tr : list (event ImageResult)) :
  gets_after n (map EvYield l ++ tr) = gets_after (n - List.length l) tr.
Proof.
  revert n. induction l as [|r l IH]; intros n; cbn [map app gets_after List.length].
  - now rewrite Nat.sub_0_r.
  - rewrite IH. f_equal. lia.
Qed.

End TraceProperties.

Section LoopProperties.

Context {RawEntry ImageResult : Type}.
Variable model_validate : RawEntry -> result ImageResult.
Variable get : params -> result (response (result (page_data RawEntry))).
Variable max_results : option Z.
Variable mk : Z -> params.

Lemma search_loop_decoded (fuel : nat) (offset y : Z) (data : page_data RawEntry) :
  decoded get mk offset data ->
  search_loop model_validate get max_results mk (S fuel) offset y
  = match results data with
    | None | Some [] => ([EvGet (mk offset)], Finished)
    | Some rs =>
        let '(evs, y', returned) := page_loop model_validate max_results y rs in
        if returned then (EvGet (mk offset) :: evs, Finished)
        else if negb (has_next data) then (EvGet (mk offset) :: evs, Finished)
        else
          let '(evs', out) :=
            search_loop model_validate get max_results mk fuel
              (offset + Z.of_nat (List.length rs)) y' in
          (EvGet (mk offset) :: evs ++ evs', out)
    end.
Proof.
  intros (r & Hr & Hs & Hp). cbn [search_loop].
  rewrite (checked_request_success _ r Hr Hs), Hp. reflexivity.
Qed.

(** One iteration, by cases that do not depend on the fuel: the loop stops
    right after the request; or it stops after the records of the page; or it
    goes on at the next offset. *)
Lemma search_loop_cases (offset y : Z) :
  (exists out : outcome,
      out <> OutOfFuel /\
      forall fuel : nat,
        search_loop model_validate get max_results mk (S fuel) offset y
        = ([EvGet (mk offset)], out)) \/
  (exists (data : page_data RawEntry) (rs : list RawEntry),
      decoded get mk offset data /\ results data = Some rs /\ rs <> [] /\
      let taken := take_cap max_results y (valid_entries model_validate rs) in
      let y' := (y + Z.of_nat (List.length taken))%Z in
      (forall fuel : nat,
          search_loop model_validate get max_results mk (S fuel) offset y
          = (EvGet (mk offset) :: map EvYield taken, Finished)) \/
      (cap_reached max_results y = false /\ has_next data = true /\
       snd (page_loop model_validate max_results y rs) = false /\
       forall fuel : nat,
         search_loop model_validate get max_results mk (S fuel) offset y
         = (EvGet (mk offset) :: map EvYield taken
              ++ fst (search_loop model_validate get max_results mk fuel
                        (offset + Z.of_nat (List.length rs)) y'),
            snd (search_loop model_validate get max_results mk fuel
                   (offset + Z.of_nat (List.length rs)) y')))).
Proof.
  destruct (checked_request (get (mk offset))) as [r|e] eqn:Hc.
  2:{ left. exists (Raised e). split; [discriminate|].
      intros fuel. cbn [search_loop]. now rewrite Hc. }
  destruct (payload r) as [data|e] eqn:Hp.
  2:{ left. exists (Raised ParsingError). split; [discriminate|].
      intros fuel. cbn [search_loop]. now rewrite Hc, Hp. }
  assert (Hd : decoded get mk offset data).
  { exists r. unfold checked_request, raise_for_status in Hc.
    destruct (get (mk offset)) as [r'|e']; cbn in Hc.
    - destruct (is_success r') eqn:Hs; cbn in Hc; [|discriminate].
      injection Hc as ->. auto.
    - destruct (is_RequestError e'); discriminate. }
  pose proof (fun fuel => search_loop_decoded fuel offset y data Hd) as Hstep.
  destruct (results data) as [rs|] eqn:Hres;
    [|left; exists Finished; split; [discriminate|exact Hstep]].
  assert (Hrs : rs = [] \/ rs <> []) by (destruct rs; [now left|now right]).
  destruct Hrs as [->|Hne];
    [left; exists Finished; split; [discriminate|exact Hstep]|].
  right. exists data, rs.
  split; [exact Hd|]. split; [exact Hres|]. split; [exact Hne|].
  assert (Hstep' : forall fuel : nat,
    search_loop model_validate get max_results mk (S fuel) offset y
    = let '(evs, y', returned) := page_loop model_validate max_results y rs in
      if returned then (EvGet (mk offset) :: evs, Finished)
      else if negb (has_next data) then (EvGet (mk offset) :: evs, Finished)
      else
        let '(evs', out) :=
          search_loop model_validate get max_results mk fuel
            (offset + Z.of_nat (List.length rs)) y' in
        (EvGet (mk offset) :: evs ++ evs', out)).
  { intros fuel. rewrite Hstep. destruct rs; [now elim Hne|reflexivity]. }
  clear Hstep.
  pose proof (page_loop_yields model_validate max_results rs y) as Hy.
  assert (Hc0 : snd (page_loop model_validate max_results y rs) = false ->
                cap_reached max_results y = false).
  { destruct rs as [|res rs']; [now elim Hne|]. cbn [page_loop].
    now destruct (cap_reached max_results y). }
  cbv zeta.
  destruct (page_loop model_validate max_results y rs) as [[evs y'] ret].
  cbn [fst snd] in Hy, Hc0 |- *. injection Hy as -> ->.
  destruct ret; [left; exact Hstep'|].
  destruct (has_next data); cbn [negb] in Hstep'; [|left; exact Hstep'].
  right. split; [now apply Hc0|]. split; [reflexivity|]. split; [reflexivity|].
  intros fuel. rewrite Hstep'.
  now destruct (search_loop model_validate get max_results mk fuel
                  (offset + Z.of_nat (List.length rs))
                  (y + Z.of_nat
                         (List.length
                            (take_cap max_results y
                               (valid_entries model_validate rs))))).
Qed.

Lemma search_loop_first_request (fuel : nat) (offset y : Z) :
  exists tr : list (event ImageResult),
    fst (search_loop model_validate get max_results mk (S fuel) offset y)
    = EvGet (mk offset) :: tr.
Proof.
  destruct (search_loop_cases offset y)
    as [(out & _ & E)|(data & rs & _ & _ & _ & [E|(_ & _ & _ & E)])];
    rewrite E; cbn [fst]; eauto.
Qed.

(** The model runs out of fuel only after as many requests as it had fuel. *)
Lemma search_loop_out_of_fuel (fuel : nat) (offset y : Z) :
  snd (search_loop model_validate get max_results mk fuel offset y) = OutOfFuel ->
  List.length
    (requests (fst (search_loop model_validate get max_results mk fuel offset y)))
  = fuel.
Proof.
  revert offset y. induction fuel as [|fuel IH]; intros offset y; [reflexivity|].
  destruct (search_loop_cases offset y)
    as [(out & Hne & E)|(data & rs & _ & _ & _ & [E|(_ & _ & _ & E)])];
    rewrite E; cbn [fst snd].
  - intros ->. now elim Hne.
  - discriminate.
  - intros H. cbn [requests List.length].
    rewrite requests_app, requests_map. cbn [app]. now rewrite IH.
Qed.

(** Under a cap [m], from a state where [y] records have been yielded: at
    most [m - y] more are yielded, and at most one request is sent once they
    have been. *)
Lemma search_loop_capped (m : Z) (fuel : nat) (offset y : Z) :
  max_results = Some m ->
  List.length
    (yields (fst (search_loop model_validate get max_results mk fuel offset y)))
  <= Z.to_nat (m - y) /\
  gets_after (Z.to_nat (m - y))
    (fst (search_loop model_validate get max_results mk fuel offset y)) <= 1.
Proof.
  intros Hm. revert offset y.
  induction fuel as [|fuel IH]; intros offset y; [cbn; lia|].
  destruct (search_loop_cases offset y)
    as [(out & Hne & E)|(data & rs & _ & _ & _ & [E|(Hc & _ & _ & E)])];
    rewrite E; cbn [fst yields gets_after]; clear E.
  - cbn [List.length]. destruct (Nat.eqb (Z.to_nat (m - y)) 0); lia.
  - rewrite yields_map.
    rewrite <- (app_nil_r (map EvYield _)), gets_after_yields.
    cbn [gets_after]. split.
    + rewrite Hm. cbn [take_cap]. apply firstn_le_length.
    + destruct (Nat.eqb (Z.to_nat (m - y)) 0); lia.
  - rewrite yields_app, yields_map, length_app, gets_after_yields.
    set (taken := take_cap max_results y (valid_entries model_validate rs)).
    assert (Ht : List.length taken <= Z.to_nat (m - y)).
    { subst taken. rewrite Hm. cbn [take_cap]. apply firstn_le_length. }
    rewrite Hm in Hc. cbn [cap_reached] in Hc. apply Z.leb_gt in Hc.
    destruct (IH (offset + Z.of_nat (List.length rs))%Z
                 (y + Z.of_nat (List.length taken))%Z) as [IHy IHg].
    replace (Z.to_nat (m - (y + Z.of_nat (List.length taken))))
      with (Z.to_nat (m - y) - List.length taken) in IHy, IHg by lia.
    split; [lia|].
    destruct (Nat.eqb_spec (Z.to_nat (m - y)) 0) as [E0|_]; [lia|].
    exact IHg.
Qed.

(** Once the cap has been reached within [fuel] iterations, one more
    iteration is enough for the generator to terminate. *)
Lemma search_loop_cap_terminates (m : Z) (fuel : nat) (offset y : Z) :
  max_results = Some m ->
  List.length
    (yields (fst (search_loop model_validate get max_results mk fuel offset y)))
  = Z.to_nat (m - y) ->
  snd (search_loop model_validate get max_results mk (S fuel) offset y)
  <> OutOfFuel.
Proof.
  intros Hm. revert offset y.
  induction fuel as [|fuel IH]; intros offset y Hlen.
  - cbn [search_loop fst yields List.length] in Hlen.
    destruct (search_loop_cases offset y)
      as [(out & Hne & E)|(data & rs & _ & _ & _ & [E|(Hc & _ & _ & E)])];
      try (rewrite E; cbn [snd]; congruence).
    rewrite Hm in Hc. cbn [cap_reached] in Hc. apply Z.leb_gt in Hc. lia.
  - destruct (search_loop_cases offset y)
      as [(out & Hne & E)|(data & rs & _ & _ & _ & [E|(Hc & _ & _ & E)])];
      try (rewrite E; cbn [snd]; congruence).
    rewrite (E (S fuel)). cbn [snd]. apply IH.
    rewrite (E fuel) in Hlen. cbn [fst yields] in Hlen.
    rewrite yields_app, yields_map, length_app in Hlen.
    set (taken := take_cap max_results y (valid_entries model_validate rs)) in *.
    assert (Ht : List.length taken <= Z.to_nat (m - y)).
    { subst taken. rewrite Hm. cbn [take_cap]. apply firstn_le_length. }
    destruct (search_loop_capped m fuel (offset + Z.of_nat (List.length rs))%Z
                (y + Z.of_nat (List.length taken))%Z Hm) as [Hy _].
    lia.
Qed.

End LoopProperties.

(** ** The generator: the cap on the number of results *)

(** C3, as stated, fails: in the scenario of the specification (five valid
    records and an invalid one over two pages, a cap of three) the third
    record is the last entry of the first page; the cap is reached when it is
    yielded, and the generator, asked for one more record, still requests the
    page at offset 3 before it stops. *)
Lemma request_after_cap_reached :
  search_cats two_pages (Some 3%Z) 5
  = ([EvPost "cats"; EvGet (cats_params 0);
      EvYield (cat "a"); EvYield (cat "b"); EvYield (cat "c");
      EvGet (cats_params 3)], Finished) /\
  gets_after 3 (fst (search_cats two_pages (Some 3%Z) 5)) = 1.
Proof. split; reflexivity. Qed.

(** C3 (amended): with a cap [m] on the number of results the generator
    yields at most [m] records (none when [m] is not positive), and once that
    many have been yielded it yields nothing more and sends at most one
    further page request before it terminates: when the cap has been reached
    within some number of iterations of the loop, the run allowed one more
    iteration is not out of fuel. *)
Theorem asearch_cap {RawEntry ImageResult : Type}
    (model_validate : RawEntry -> result ImageResult)
    (get : params -> result (response (result (page_data RawEntry))))
    (post : string -> result (response (result string)))
    (keywords region safesearch : string) (fs : search_filters) (m : Z) (fuel : nat) :
  List.length
    (yields (fst (asearch model_validate get post keywords (Some m)
                    region safesearch fs fuel))) <= Z.to_nat m /\
  gets_after (Z.to_nat m)
    (fst (asearch model_validate get post keywords (Some m)
            region safesearch fs fuel)) <= 1 /\
  (List.length
     (yields (fst (asearch model_validate get post keywords (Some m)
                     region safesearch fs fuel))) = Z.to_nat m ->
   snd (asearch model_validate get post keywords (Some m)
          region safesearch fs (S fuel)) <> OutOfFuel).
Proof.
  unfold asearch. destruct (_get_vqd post keywords) as [vqd|e].
  2:{ cbn. split; [lia|]. split; [lia|discriminate]. }
  pose proof (search_loop_capped model_validate get (Some m)
                (search_params keywords region safesearch fs vqd)
                m fuel 0 0 eq_refl) as [Hy Hg].
  pose proof (search_loop_cap_terminates model_validate get (Some m)
                (search_params keywords region safesearch fs vqd)
                m fuel 0 0 eq_refl) as Ht.
  rewrite Z.sub_0_r in Hy, Hg, Ht.
  destruct (search_loop model_validate get (Some m)
              (search_params keywords region safesearch fs vqd) fuel 0 0)
    as [evs out].
  destruct (search_loop model_validate get (Some m)
              (search_params keywords region safesearch fs vqd) (S fuel) 0 0)
    as [evs' out'].
  cbn [fst snd yields gets_after] in *. auto.
Qed.

Lemma asearch_cap_witness :
  List.length (yields (fst (search_cats two_pages (Some 3%Z) 1))) = Z.to_nat 3 /\
  snd (search_cats two_pages (Some 3%Z) 1) = OutOfFuel /\
  snd (search_cats two_pages (Some 3%Z) 2) <> OutOfFuel.
Proof.
  split; [reflexivity|]. split; [reflexivity|].
  apply (proj2 (proj2 (asearch_cap validate_entry (serve two_pages) post_token
                         "cats" "wt-wt" "moderate" no_filters 3 1))).
  reflexivity.
Defined.

(** The scenario of the specification: exactly three records, the invalid
    entry never looked at, two page requests. *)
Example search_cats_scenario :
  yields (fst (search_cats two_pages (Some 3%Z) 5)) = [cat "a"; cat "b"; cat "c"] /\
  requests (fst (search_cats two_pages (Some 3%Z) 5))
  = [cats_params 0; cats_params 3] /\
  yields (fst (search_cats two_pages None 5))
  = [cat "a"; cat "b"; cat "c"; cat "d"; cat "e"].
Proof. repeat split. Qed.

(** ** The generator: paging *)

Lemma valid_entries_removelast {RawEntry ImageResult : Type}
    (model_validate : RawEntry -> result ImageResult) (rs : list RawEntry) :
  List.length (valid_entries model_validate rs)
  <= S (List.length (valid_entries model_validate (removelast rs))).
Proof.
  destruct rs as [|res rs]; [cbn; lia|].
  rewrite (app_removelast_last res (l := res :: rs)) at 1 by discriminate.
  rewrite valid_entries_app, length_app. cbn [valid_entries].
  destruct (model_validate (last (res :: rs) res)); cbn [List.length]; lia.
Qed.

(** When the cap is not reached before the last entry, it cuts nothing off
    the page. *)
Lemma take_cap_whole_page {RawEntry ImageResult : Type}
    (model_validate : RawEntry -> result ImageResult)
    (max_results : option Z) (y : Z) (rs : list RawEntry) :
  cap_reached max_results
    (y + Z.of_nat (List.length (valid_entries model_validate (removelast rs))))
  = false ->
  take_cap max_results y (valid_entries model_validate rs)
  = valid_entries model_validate rs.
Proof.
  destruct max_results as [m|]; [|reflexivity]. cbn [cap_reached take_cap].
  intros H. apply Z.leb_gt in H. apply firstn_all2.
  pose proof (valid_entries_removelast model_validate rs). lia.
Qed.

(** C8, as stated, fails: the page at offset 0 has results and a next-page
    indicator, but with a cap of one result the generator returns inside the
    page and never requests the next page. *)
Lemma capped_page_no_next_request :
  decoded (serve one_page) cats_params 0
    (mkPage (Some [cat_entry "a"; broken_entry; cat_entry "b"]) true) /\
  search_cats one_page (Some 1%Z) 5
  = ([EvPost "cats"; EvGet (cats_params 0); EvYield (cat "a")], Finished) /\
  requests (fst (search_cats one_page (Some 1%Z) 5)) = [cats_params 0].
Proof.
  split; [|split; reflexivity].
  eexists. split; [reflexivity|]. split; reflexivity.
Qed.

(** C8 (amended): the first request has offset 0.  For every decoded page:
    when the results are absent or empty the generator terminates normally;
    when there is no next-page indicator it terminates after yielding the
    results of the page (its valid entries, up to the cap); when there is
    one, and the cap on the number of results is not reached before the last
    entry of the page, it yields the valid entries of the page, advances the
    offset by the number of entries of the page and requests the next page;
    when the cap is reached before the last entry it terminates instead. *)
Theorem search_loop_paging {RawEntry ImageResult : Type}
    (model_validate : RawEntry -> result ImageResult)
    (get : params -> result (response (result (page_data RawEntry))))
    (max_results : option Z) :
  (forall (post : string -> result (response (result string)))
          (keywords region safesearch vqd : string) (fs : search_filters) (fuel : nat),
      _get_vqd post keywords = Ok vqd ->
      asearch model_validate get post keywords max_results region safesearch
        fs (S fuel)
      = (EvPost keywords
           :: fst (search_loop model_validate get max_results
                     (search_params keywords region safesearch fs vqd)
                     (S fuel) 0 0),
         snd (search_loop model_validate get max_results
                (search_params keywords region safesearch fs vqd)
                (S fuel) 0 0)) /\
      exists tr : list (event ImageResult),
        fst (search_loop model_validate get max_results
               (search_params keywords region safesearch fs vqd) (S fuel) 0 0)
        = EvGet (search_params keywords region safesearch fs vqd 0) :: tr) /\
  (forall (mk : Z -> params) (fuel : nat) (offset y : Z)
          (data : page_data RawEntry),
      decoded get mk offset data ->
      (results data = None \/ results data = Some [] ->
       search_loop model_validate get max_results mk (S fuel) offset y
       = ([EvGet (mk offset)], Finished)) /\
      (forall rs : list RawEntry,
          results data = Some rs -> rs <> [] ->
          (has_next data = false ->
           search_loop model_validate get max_results mk (S fuel) offset y
           = (EvGet (mk offset)
                :: map EvYield
                     (take_cap max_results y (valid_entries model_validate rs)),
              Finished)) /\
          (has_next data = true ->
           cap_reached max_results
             (y + Z.of_nat
                    (List.length (valid_entries model_validate (removelast rs))))
           = false ->
           search_loop model_validate get max_results mk (S (S fuel)) offset y
           = (EvGet (mk offset)
                :: map EvYield (valid_entries model_validate rs)
                ++ fst (search_loop model_validate get max_results mk (S fuel)
                          (offset + Z.of_nat (List.length rs))
                          (y + Z.of_nat
                                 (List.length (valid_entries model_validate rs)))),
              snd (search_loop model_validate get max_results mk (S fuel)
                     (offset + Z.of_nat (List.length rs))
                     (y + Z.of_nat
                            (List.length (valid_entries model_validate rs))))) /\
           exists tr : list (event ImageResult),
             fst (search_loop model_validate get max_results mk (S fuel)
                    (offset + Z.of_nat (List.length rs))
                    (y + Z.of_nat
                           (List.length (valid_entries model_validate rs))))
             = EvGet (mk (offset + Z.of_nat (List.length rs))%Z) :: tr) /\
          (has_next data = true ->
           cap_reached max_results
             (y + Z.of_nat
                    (List.length (valid_entries model_validate (removelast rs))))
           = true ->
           search_loop model_validate get max_results mk (S fuel) offset y
           = (EvGet (mk offset)
                :: map EvYield
                     (take_cap max_results y (valid_entries model_validate rs)),
              Finished)))).
Proof.
  split.
  - intros post keywords region safesearch vqd fs fuel Hv. split.
    + unfold asearch. rewrite Hv.
      now destruct (search_loop model_validate get max_results
                      (search_params keywords region safesearch fs vqd)
                      (S fuel) 0 0).
    + apply search_loop_first_request.
  - intros mk fuel offset y data Hd. split.
    + intros H. rewrite (search_loop_decoded _ _ _ _ fuel offset y data Hd).
      now destruct H as [-> | ->].
    + intros rs Hres Hne.
      pose proof (page_loop_yields model_validate max_results rs y) as Hy.
      pose proof (page_loop_returned model_validate max_results rs y Hne) as Hr.
      assert (Hstep : forall f : nat,
        search_loop model_validate get max_results mk (S f) offset y
        = let '(evs, y', returned) := page_loop model_validate max_results y rs in
          if returned then (EvGet (mk offset) :: evs, Finished)
          else if negb (has_next data) then (EvGet (mk offset) :: evs, Finished)
          else
            let '(evs', out) :=
              search_loop model_validate get max_results mk f
                (offset + Z.of_nat (List.length rs)) y' in
            (EvGet (mk offset) :: evs ++ evs', out)).
      { intros f. rewrite (search_loop_decoded _ _ _ _ f offset y data Hd), Hres.
        destruct rs; [now elim Hne|reflexivity]. }
      destruct (page_loop model_validate max_results y rs) as [[evs y'] ret].
      cbn [fst snd] in Hy, Hr. injection Hy as -> ->. subst ret.
      split; [|split].
      * intros Hn. rewrite Hstep, Hn. cbn [negb].
        now destruct (cap_reached max_results _).
      * intros Hn Hc. rewrite Hstep, Hn, Hc. cbn [negb].
        rewrite (take_cap_whole_page model_validate max_results y rs Hc).
        split; [|apply search_loop_first_request].
        now destruct (search_loop model_validate get max_results mk (S fuel)
                        (offset + Z.of_nat (List.length rs))
                        (y + Z.of_nat
                               (List.length (valid_entries model_validate rs)))).
      * intros Hn Hc. now rewrite Hstep, Hc.
Qed.

Lemma search_loop_paging_witness :
  decoded (serve two_pages) cats_params 0 first_page /\
  has_next first_page = true /\
  search_loop validate_entry (serve two_pages) None cats_params 2 0 0
  = (EvGet (cats_params 0)
       :: map EvYield [cat "a"; cat "b"; cat "c"]
       ++ fst (search_loop validate_entry (serve two_pages) None cats_params 1
                 (0 + 3) (0 + 3)),
     snd (search_loop validate_entry (serve two_pages) None cats_params 1
            (0 + 3) (0 + 3))).
Proof.
  assert (Hd : decoded (serve two_pages) cats_params 0 first_page).
  { eexists. split; [reflexivity|]. split; reflexivity. }
  assert (Hne : [cat_entry "a"; cat_entry "b"; cat_entry "c"] <> [])
    by discriminate.
  split; [exact Hd|]. split; [reflexivity|].
  exact (proj1 (proj1 (proj2 (proj2
           (proj2 (search_loop_paging validate_entry (serve two_pages) None)
              cats_params 0 0%Z 0%Z first_page Hd)
           [cat_entry "a"; cat_entry "b"; cat_entry "c"] eq_refl Hne))
         eq_refl eq_refl)).
Defined.

(** ** The scraper *)

Section ScraperProperties.

Variable find_all_img : string -> result (list (option string)).
Variable urljoin : string -> string -> result string.
Variable get_page : string -> result (response string).





End ScraperProperties.



(** * Further properties of the client *)

(** ** [Client.__init__]: the request headers *)

Lemma dict_lookup_set_eq (key value : string) (d : dict) :
  dict_lookup key (dict_set key value d) = Some value.
Proof.
  induction d as [|[k v] d IH]; cbn [dict_set dict_lookup].
  - now rewrite String.eqb_refl.
  - destruct (String.eqb k key) eqn:E; cbn [dict_lookup]; now rewrite E.
Qed.

Lemma dict_lookup_set_ne (key key' value : string) (d : dict) :
  key <> key' -> dict_lookup key' (dict_set key value d) = dict_lookup key' d.
Proof.
  intros Hne. induction d as [|[k v] d IH]; cbn [dict_set dict_lookup].
  - destruct (String.eqb_spec key key'); [contradiction|reflexivity].
  - destruct (String.eqb_spec k key) as [->|Hk]; cbn [dict_lookup].
    + destruct (String.eqb_spec key key'); [contradiction|reflexivity].
    + now rewrite IH.
Qed.

Lemma dict_lookup_absent (key : string) (d : dict) :
  ~ In key (map fst d) -> dict_lookup key d = None.
Proof.
  induction d as [|[k v] d IH]; cbn [map fst In dict_lookup]; [reflexivity|].
  intros H. destruct (String.eqb_spec k key) as [->|_]; [|apply IH]; tauto.
Qed.

(** What [update] leaves under a key: the value of the argument when it has
    the key, the old value otherwise. *)
Lemma dict_lookup_update (key : string) (h d : dict) :
  NoDup (map fst h) ->
  dict_lookup key (dict_update d h)
  = match dict_lookup key h with
    | Some v => Some v
    | None => dict_lookup key d
    end.
Proof.
  unfold dict_update. revert d.
  induction h as [|[k v] h IH]; intros d Hnd; [reflexivity|].
  cbn [fold_left fst snd map dict_lookup] in *.
  inversion Hnd as [|? ? Hk Hh]; subst.
  rewrite (IH _ Hh).
  destruct (String.eqb_spec k key) as [->|Hne].
  - rewrite (dict_lookup_absent key h Hk). apply dict_lookup_set_eq.
  - now rewrite (dict_lookup_set_ne k key v d Hne).
Qed.





(** X1: a header passed to the constructor overrides the default of the same
    name, and every other default is kept: under each name the client sends
    the value passed when there is one, the default otherwise. *)
Theorem init_headers_lookup (h : dict) (proxies : option dict) (timeout : Z)
    (key : string) :
  NoDup (map fst h) ->
  dict_lookup key (kw_headers (init (Some h) proxies timeout))
  = match dict_lookup key h with
    | Some v => Some v
    | None => dict_lookup key default_headers
    end.
Proof.
  intros Hnd.
  assert (E : kw_headers (init (Some h) proxies timeout)
              = if truthy_dict (Some h) then dict_update default_headers h
                else default_headers)
    by (unfold init; now destruct proxies).
  rewrite E. destruct h as [|kv h]; [reflexivity|].
  cbn [truthy_dict]. now apply dict_lookup_update.
Qed.

Lemma init_headers_lookup_witness :
  NoDup (map fst [("DNT", "0"); ("X-Key", "k")]) /\
  dict_lookup "DNT"
    (kw_headers (init (Some [("DNT", "0"); ("X-Key", "k")]) None 10))
  = Some "0".
Proof.
  assert (H : NoDup (map fst [("DNT", "0"); ("X-Key", "k")])).
  { cbn. repeat (constructor; [cbn [In]; intuition discriminate|]). constructor. }
  split; [exact H|].
  exact (init_headers_lookup [("DNT", "0"); ("X-Key", "k")] None 10 "DNT" H).
Defined.


(** ** [_get_vqd]: the shape of a token and the errors *)

(** What the guarded request can raise when the transport raises request
    errors only. *)
Lemma checked_request_errors {B : Type} (request : result (response B)) (e : exn) :
  (forall e' : exn, request = Raise e' -> is_RequestError e' = true) ->
  checked_request request = Raise e -> e = NetworkError \/ e = HTTPStatusError.
Proof.
  intros Ht. unfold checked_request, raise_for_status.
  destruct request as [r|e']; cbn.
  - destruct (is_success r); cbn; [discriminate|].
    intros H; injection H as <-. now right.
  - rewrite (Ht e' eq_refl). cbn. intros H; injection H as <-. now left.
Qed.


(** X3: every token that the token fetch returns is a non-empty string of
    letters, digits and hyphens. *)
Theorem get_vqd_token_shape (post : string -> result (response (result string)))
    (keywords tok : string) :
  _get_vqd post keywords = Ok tok ->
  truthy tok = true /\ all_chars is_token_char tok = true.
Proof.
  unfold _get_vqd.
  destruct (checked_request (post keywords)) as [r|e]; cbn [bind];
    [|discriminate].
  destruct (payload r) as [text|e]; cbn; [|discriminate].
  destruct (re_search vqd_pattern text) as [caps|] eqn:E; cbn; [|discriminate].
  destruct (re_search_vqd_single _ _ E) as [t ->]. cbn.
  intros H; injection H as ->.
  apply re_search_vqd_first in E. destruct E as (pre & Hat & _).
  destruct Hat as (q1 & q2 & rest & _ & _ & _ & Ht & Ha). now split.
Qed.

Lemma get_vqd_token_shape_witness :
  _get_vqd post_token "cats" = Ok "4-987-abc" /\
  truthy "4-987-abc" = true /\ all_chars is_token_char "4-987-abc" = true.
Proof.
  split; [reflexivity|].
  exact (get_vqd_token_shape post_token "cats" "4-987-abc" eq_refl).
Defined.

(** ** [asearch]: the requests of a run *)

Section RunProperties.

Context {RawEntry ImageResult : Type}.
Variable model_validate : RawEntry -> result ImageResult.
Variable get : params -> result (response (result (page_data RawEntry))).
Variable mk : Z -> params.

(** One iteration of the loop, with the loop over the page replaced by what
    it yields. *)
Lemma search_loop_unfold (max_results : option Z) (fuel : nat) (offset y : Z) :
  search_loop model_validate get max_results mk (S fuel) offset y
  = match checked_request (get (mk offset)) with
    | Raise e => ([EvGet (mk offset)], Raised e)
    | Ok r =>
        match payload r with
        | Raise _ => ([EvGet (mk offset)], Raised ParsingError)
        | Ok data =>
            match page_entries get (mk offset) with
            | [] => ([EvGet (mk offset)], Finished)
            | rs =>
                let taken :=
                  take_cap max_results y (valid_entries model_validate rs) in
                if cap_reached max_results
                     (y + Z.of_nat
                            (List.length
                               (valid_entries model_validate (removelast rs))))
                   || negb (has_next data)
                then (EvGet (mk offset) :: map EvYield taken, Finished)
                else
                  (EvGet (mk offset) :: map EvYield taken
                     ++ fst (search_loop model_validate get max_results mk fuel
                               (offset + Z.of_nat (List.length rs))
                               (y + Z.of_nat (List.length taken))),
                   snd (search_loop model_validate get max_results mk fuel
                          (offset + Z.of_nat (List.length rs))
                          (y + Z.of_nat (List.length taken))))
            end
        end
    end.
Proof.
  cbn [search_loop]. unfold page_entries.
  destruct (checked_request (get (mk offset))) as [r|e]; [|reflexivity].
  destruct (payload r) as [data|e]; [|reflexivity]. cbn [try_except].
  destruct (results data) as [rs|]; [|reflexivity].
  assert (Hrs : rs = [] \/ rs <> []) by (destruct rs; [now left|now right]).
  destruct Hrs as [->|Hne]; [reflexivity|].
  pose proof (page_loop_yields model_validate max_results rs y) as Hy.
  pose proof (page_loop_returned model_validate max_results rs y Hne) as Hr.
  transitivity
    (let '(evs, y', returned) := page_loop model_validate max_results y rs in
     if returned then (EvGet (mk offset) :: evs, Finished)
     else if negb (has_next data) then (EvGet (mk offset) :: evs, Finished)
     else
       let '(evs', out) :=
         search_loop model_validate get max_results mk fuel
           (offset + Z.of_nat (List.length rs)) y' in
       (EvGet (mk offset) :: evs ++ evs', out)).
  { destruct rs; [now elim Hne|reflexivity]. }
  destruct (page_loop model_validate max_results y rs) as [[evs y'] ret].
  cbn [fst snd] in Hy, Hr. injection Hy as -> ->. subst ret.
  transitivity
    (if cap_reached max_results
          (y + Z.of_nat
                 (List.length (valid_entries model_validate (removelast rs))))
        || negb (has_next data)
     then (EvGet (mk offset)
             :: map EvYield
                  (take_cap max_results y (valid_entries model_validate rs)),
           @Finished)
     else
       (EvGet (mk offset)
          :: map EvYield
               (take_cap max_results y (valid_entries model_validate rs))
          ++ fst (search_loop model_validate get max_results mk fuel
                    (offset + Z.of_nat (List.length rs))
                    (y + Z.of_nat
                           (List.length
                              (take_cap max_results y
                                 (valid_entries model_validate rs))))),
        snd (search_loop model_validate get max_results mk fuel
               (offset + Z.of_nat (List.length rs))
               (y + Z.of_nat
                      (List.length
                         (take_cap max_results y
                            (valid_entries model_validate rs))))))).
  { destruct (cap_reached max_results _); [reflexivity|].
    destruct (has_next data); cbn [negb orb]; [|reflexivity].
    now destruct (search_loop model_validate get max_results mk fuel _ _). }
  destruct rs; [now elim Hne|reflexivity].
Qed.

(** The requests of a run: the first is at the offset the loop starts from,
    and each further one follows from the page before it. *)
Lemma search_loop_requests (max_results : option Z) (fuel : nat) (offset y : Z) :
  exists rest : list Z,
    requests (fst (search_loop model_validate get max_results mk (S fuel) offset y))
    = map mk (offset :: rest)
    /\ follows get mk offset rest.
Proof.
  revert offset y. induction fuel as [|fuel IH]; intros offset y;
    rewrite search_loop_unfold;
    (destruct (checked_request (get (mk offset))) as [r|e];
       [|exists []; now split]);
    (destruct (payload r) as [data|e]; [|exists []; now split]);
    (destruct (page_entries get (mk offset)) as [|res rs] eqn:Ep;
       [exists []; now split|]);
    cbv zeta;
    (destruct (cap_reached max_results _ || negb (has_next data));
       [exists []; cbn [fst requests]; now rewrite requests_map|]);
    cbn [fst requests]; rewrite requests_app, requests_map; cbn [app].
  - exists []. now split.
  - match goal with
    | |- context [search_loop model_validate get max_results mk (S fuel) ?o ?c] =>
        destruct (IH o c) as (rest & -> & Hf); exists (o :: rest)
    end.
    split; [reflexivity|]. cbn [follows]. rewrite Ep.
    split; [discriminate|]. now split.
Qed.

Lemma follows_increasing (offset : Z) (rest : list Z) :
  follows get mk offset rest -> StronglySorted Z.lt (offset :: rest).
Proof.
  revert offset. induction rest as [|o rest IH]; intros offset Hf.
  - repeat constructor.
  - cbn [follows] in Hf. destruct Hf as (Hne & -> & Hf).
    specialize (IH _ Hf).
    assert (Hlt : (offset
                   < offset + Z.of_nat (List.length (page_entries get (mk offset))))%Z).
    { destruct (page_entries get (mk offset)); [now elim Hne|cbn [List.length]; lia]. }
    constructor; [exact IH|].
    constructor; [exact Hlt|].
    apply StronglySorted_inv in IH as [_ Hall].
    eapply Forall_impl; [|exact Hall]. cbn. intros a Ha. lia.
Qed.

(** Without a cap, what a run yields is the valid entries of the pages it
    requested, page after page. *)
Lemma search_loop_uncapped_yields (fuel : nat) (offset y : Z) :
  yields (fst (search_loop model_validate get None mk fuel offset y))
  = flat_map (fun p => valid_entries model_validate (page_entries get p))
      (requests (fst (search_loop model_validate get None mk fuel offset y))).
Proof.
  revert offset y. induction fuel as [|fuel IH]; intros offset y; [reflexivity|].
  rewrite search_loop_unfold.
  pose proof (eq_refl (page_entries get (mk offset))) as Ep.
  unfold page_entries at 2 in Ep.
  destruct (checked_request (get (mk offset))) as [r|e];
    [|cbn [fst yields requests flat_map]; now rewrite Ep].
  destruct (payload r) as [data|e];
    [|cbn [fst yields requests flat_map]; now rewrite Ep].
  clear Ep.
  destruct (page_entries get (mk offset)) as [|res rs] eqn:Ep;
    [cbn [fst yields requests flat_map]; now rewrite Ep|].
  cbv zeta. cbn [take_cap cap_reached orb].
  destruct (negb (has_next data)); cbn [fst yields requests flat_map].
  - rewrite yields_map, requests_map, Ep. cbn [flat_map]. now rewrite app_nil_r.
  - rewrite yields_app, yields_map, requests_app, requests_map, Ep.
    cbn [app]. now rewrite IH.
Qed.

(** A cap only cuts the run short: with the same fuel, what the capped run
    yields is the head of what the run without a cap yields. *)
Lemma search_loop_capped_prefix (m : Z) (fuel : nat) (offset y y0 : Z) :
  yields (fst (search_loop model_validate get (Some m) mk fuel offset y))
  = firstn (Z.to_nat (m - y))
      (yields (fst (search_loop model_validate get None mk fuel offset y0))).
Proof.
  revert offset y y0. induction fuel as [|fuel IH]; intros offset y y0.
  - cbn. now rewrite firstn_nil.
  - rewrite !search_loop_unfold.
    destruct (checked_request (get (mk offset))) as [r|e];
      [|cbn; now rewrite firstn_nil].
    destruct (payload r) as [data|e]; [|cbn; now rewrite firstn_nil].
    destruct (page_entries get (mk offset)) as [|res rs];
      [cbn; now rewrite firstn_nil|].
    cbv zeta. cbn [take_cap orb].
    change (cap_reached None _) with false. cbn [orb].
    set (page := res :: rs).
    set (v := valid_entries model_validate page).
    set (vl := valid_entries model_validate (removelast page)).
    assert (Hv : List.length v <= S (List.length vl))
      by apply valid_entries_removelast.
    assert (Hv' : List.length vl <= List.length v).
    { subst v vl.
      rewrite (app_removelast_last res (l := page)) at 2 by discriminate.
      rewrite valid_entries_app, length_app. lia. }
    destruct (cap_reached (Some m) (y + Z.of_nat (List.length vl))) eqn:Hc;
      cbn [cap_reached] in Hc; cbn [orb].
    + apply Z.leb_le in Hc.
      destruct (negb (has_next data)); cbn [fst yields];
        rewrite ?yields_app, !yields_map; [reflexivity|].
      rewrite firstn_app.
      replace (Z.to_nat (m - y) - List.length v) with 0 by lia.
      cbn [firstn]. now rewrite app_nil_r.
    + apply Z.leb_gt in Hc.
      destruct (negb (has_next data)); cbn [fst yields];
        rewrite ?yields_app, !yields_map; [reflexivity|].
      rewrite (firstn_all2 (n := Z.to_nat (m - y)) v) by lia.
      rewrite firstn_app, (firstn_all2 (n := Z.to_nat (m - y)) v) by lia.
      f_equal. rewrite (IH _ _ (y0 + Z.of_nat (List.length v))%Z).
      f_equal. lia.
Qed.


End RunProperties.

Lemma asearch_run {RawEntry ImageResult : Type}
    (model_validate : RawEntry -> result ImageResult)
    (get : params -> result (response (result (page_data RawEntry))))
    (post : string -> result (response (result string)))
    (keywords region safesearch vqd : string) (max_results : option Z)
    (fs : search_filters) (fuel : nat) :
  _get_vqd post keywords = Ok vqd ->
  asearch model_validate get post keywords max_results region safesearch fs fuel
  = (EvPost keywords
       :: fst (search_loop model_validate get max_results
                 (search_params keywords region safesearch fs vqd) fuel 0 0),
     snd (search_loop model_validate get max_results
            (search_params keywords region safesearch fs vqd) fuel 0 0)).
Proof.
  intros Hv. unfold asearch. rewrite Hv.
  now destruct (search_loop model_validate get max_results
                  (search_params keywords region safesearch fs vqd) fuel 0 0).
Qed.

(** X5: when the token fetch succeeds, the page requests of a search are at
    strictly increasing offsets: the first at offset 0, each further one at
    the offset before it plus the number of entries of the (non-empty) page
    found there.  No offset is requested twice. *)
Theorem asearch_offsets {RawEntry ImageResult : Type}
    (model_validate : RawEntry -> result ImageResult)
    (get : params -> result (response (result (page_data RawEntry))))
    (post : string -> result (response (result string)))
    (keywords region safesearch vqd : string) (max_results : option Z)
    (fs : search_filters) (fuel : nat) :
  _get_vqd post keywords = Ok vqd ->
  exists rest : list Z,
    requests (fst (asearch model_validate get post keywords max_results
                     region safesearch fs (S fuel)))
    = map (search_params keywords region safesearch fs vqd) (0%Z :: rest)
    /\ follows get (search_params keywords region safesearch fs vqd) 0 rest
    /\ StronglySorted Z.lt (0%Z :: rest).
Proof.
  intros Hv. rewrite (asearch_run _ _ _ _ _ _ vqd _ _ _ Hv). cbn [fst requests].
  destruct (search_loop_requests model_validate get
              (search_params keywords region safesearch fs vqd)
              max_results fuel 0 0) as (rest & E & Hf).
  exists rest. split; [exact E|]. split; [exact Hf|].
  now apply (follows_increasing get
               (search_params keywords region safesearch fs vqd)).
Qed.

Lemma asearch_offsets_witness :
  _get_vqd post_token "cats" = Ok "4-987-abc" /\
  exists rest : list Z,
    requests (fst (search_cats two_pages None 3))
    = map cats_params (0%Z :: rest)
    /\ follows (serve two_pages) cats_params 0 rest
    /\ StronglySorted Z.lt (0%Z :: rest).
Proof.
  split; [reflexivity|].
  exact (asearch_offsets validate_entry (serve two_pages) post_token
           "cats" "wt-wt" "moderate" "4-987-abc" None no_filters 2 eq_refl).
Defined.

(** X4: every page request of a search carries the token that the token
    fetch returned, together with the keywords, the region, the safe-search
    code and the filter string of the call and the output marker json; the
    requests differ in the offset only, which is never negative. *)
Theorem asearch_request_params {RawEntry ImageResult : Type}
    (model_validate : RawEntry -> result ImageResult)
    (get : params -> result (response (result (page_data RawEntry))))
    (post : string -> result (response (result string)))
    (keywords region safesearch : string) (max_results : option Z)
    (fs : search_filters) (fuel : nat) (p : params) :
  In p (requests (fst (asearch model_validate get post keywords max_results
                         region safesearch fs fuel))) ->
  exists (vqd : string) (offset : Z),
    _get_vqd post keywords = Ok vqd /\ (0 <= offset)%Z /\
    p = {| param_l := region; param_o := "json"; param_q := keywords;
           param_s := str_of_int offset; param_p := p_value safesearch;
           param_f := f_value fs; param_vqd := vqd |}.
Proof.
  destruct (_get_vqd post keywords) as [vqd|e] eqn:Hv.
  2:{ unfold asearch. rewrite Hv. intros []. }
  rewrite (asearch_run _ _ _ _ _ _ vqd _ _ _ Hv). cbn [fst requests].
  destruct fuel as [|fuel]; [intros []|].
  destruct (search_loop_requests model_validate get
              (search_params keywords region safesearch fs vqd)
              max_results fuel 0 0) as (rest & -> & Hf).
  intros Hin. apply in_map_iff in Hin as (offset & <- & Hin).
  exists vqd, offset. split; [reflexivity|]. split; [|reflexivity].
  apply follows_increasing in Hf. destruct Hin as [<-|Hin]; [lia|].
  apply StronglySorted_inv in Hf as [_ Hall].
  rewrite Forall_forall in Hall. specialize (Hall offset Hin). lia.
Qed.

Lemma asearch_request_params_witness :
  In (cats_params 3) (requests (fst (search_cats two_pages None 3))) /\
  exists (vqd : string) (offset : Z),
    _get_vqd post_token "cats" = Ok vqd /\ (0 <= offset)%Z /\
    cats_params 3
    = {| param_l := "wt-wt"; param_o := "json"; param_q := "cats";
         param_s := str_of_int offset; param_p := p_value "moderate";
         param_f := f_value no_filters; param_vqd := vqd |}.
Proof.
  assert (Hin : In (cats_params 3)
                  (requests (fst (search_cats two_pages None 3))))
    by (right; left; reflexivity).
  split; [exact Hin|].
  exact (asearch_request_params validate_entry (serve two_pages) post_token
           "cats" "wt-wt" "moderate" None no_filters 3 (cats_params 3) Hin).
Defined.

(** ** [asearch]: what a run yields *)

(** X6: without a cap on the number of results, the records that a search
    yields are exactly the valid entries of the pages it requested, in the
    order of the requests and of the entries in each page: nothing valid is
    left out and nothing is yielded twice. *)
Theorem asearch_uncapped_yields {RawEntry ImageResult : Type}
    (model_validate : RawEntry -> result ImageResult)
    (get : params -> result (response (result (page_data RawEntry))))
    (post : string -> result (response (result string)))
    (keywords region safesearch : string) (fs : search_filters) (fuel : nat) :
  yields (fst (asearch model_validate get post keywords None
                 region safesearch fs fuel))
  = flat_map (fun p => valid_entries model_validate (page_entries get p))
      (requests (fst (asearch model_validate get post keywords None
                        region safesearch fs fuel))).
Proof.
  destruct (_get_vqd post keywords) as [vqd|e] eqn:Hv.
  - rewrite (asearch_run _ _ _ _ _ _ vqd _ _ _ Hv). cbn [fst yields requests].
    apply search_loop_uncapped_yields.
  - unfold asearch. now rewrite Hv.
Qed.

(** X7: a cap on the number of results only cuts the sequence short: with a
    cap [m], a search yields the first [m] records of what the same search
    yields without a cap (none when [m] is not positive). *)
Theorem asearch_capped_prefix {RawEntry ImageResult : Type}
    (model_validate : RawEntry -> result ImageResult)
    (get : params -> result (response (result (page_data RawEntry))))
    (post : string -> result (response (result string)))
    (keywords region safesearch : string) (fs : search_filters) (m : Z)
    (fuel : nat) :
  yields (fst (asearch model_validate get post keywords (Some m)
                 region safesearch fs fuel))
  = firstn (Z.to_nat m)
      (yields (fst (asearch model_validate get post keywords None
                      region safesearch fs fuel))).
Proof.
  destruct (_get_vqd post keywords) as [vqd|e] eqn:Hv.
  - rewrite !(asearch_run _ _ _ _ _ _ vqd _ _ _ Hv). cbn [fst yields].
    rewrite (search_loop_capped_prefix model_validate get _ m fuel 0 0 0).
    now rewrite Z.sub_0_r.
  - unfold asearch. rewrite Hv. cbn. now rewrite firstn_nil.
Qed.



(** ** [download]: what is written *)

Lemma os_path_join_str (a name : string) :
  exists path : string, os_path_join a (PStr name) = Ok path.
Proof.
  unfold os_path_join. destruct (starts_with_slash name); [eauto|].
  destruct (negb (truthy a) || ends_with_slash a); eauto.
Qed.


Lemma opened_chunks (path : string) (chunks : list string) :
  opened (map (WriteChunk path) chunks) = [].
Proof. induction chunks; [reflexivity|exact IHchunks]. Qed.

Lemma output_path_named (url output_dir name : string) :
  truthy name = true ->
  output_path url output_dir (Some name) = os_path_join output_dir (PStr name).
Proof.
  intros Hn. unfold output_path, download_filename, truthy_opt. now rewrite Hn.
Qed.



(** X10: a download opens a file only when a file name was passed and the
    server answered with a success status, and then it opens the joined path
    and nothing else: a failed request or an error status leaves no file. *)
Theorem download_opens_on_success
    (stream : string -> result (response stream_body))
    (url output_dir : string) (filename : option string) :
  opened (fst (download stream url output_dir filename)) = [] \/
  exists (name path : string) (r : response stream_body),
    filename = Some name /\ truthy name = true /\
    stream url = Ok r /\ is_success r = true /\
    os_path_join output_dir (PStr name) = Ok path /\
    opened (fst (download stream url output_dir filename)) = [path].
Proof.
  destruct (truthy_opt filename) eqn:Hf.
  - destruct filename as [name|]; [|discriminate]. cbn [truthy_opt] in Hf.
    destruct (os_path_join_str output_dir name) as [path Hp].
    unfold download. rewrite (output_path_named url output_dir name Hf), Hp.
    destruct (stream url) as [r|e] eqn:Hr; [|now left].
    unfold raise_for_status. destruct (is_success r) eqn:Hs; [|now left].
    right. exists name, path, r. repeat (split; [easy|]).
    cbn [fst opened]. now rewrite opened_chunks.
  - left. destruct (download_filename_is_list url filename Hf) as (seg & _ & Hn).
    unfold download, output_path. now rewrite Hn.
Qed.

(** ** [split] and [join] *)

Lemma join_cons (sep x : string) (l : list string) :
  l <> [] -> join sep (x :: l) = (x ++ sep ++ join sep l)%string.
Proof. destruct l; [now intros H; elim H|reflexivity]. Qed.

(** Joining the pieces of a split with the separator gives the string back. *)
Lemma join_split (sep : ascii) (s : string) :
  join (String sep "") (split sep s) = s.
Proof.
  induction s as [|c s IH]; [reflexivity|]. cbn [split].
  destruct (Ascii.eqb_spec c sep) as [->|Hne].
  - rewrite join_cons by apply split_not_nil. now rewrite IH.
  - destruct (split sep s) as [|h t] eqn:E; [now apply split_not_nil in E|].
    destruct t as [|h' t].
    + unfold join in *. cbn [concat] in *. now rewrite IH.
    + rewrite join_cons in * by discriminate. rewrite <- IH. reflexivity.
Qed.

(** No piece of a split holds the separator. *)
Lemma split_lacks (sep : ascii) (s : string) :
  forallb (lacks sep) (split sep s) = true.
Proof.
  induction s as [|c s IH]; [reflexivity|]. cbn [split].
  destruct (Ascii.eqb c sep) eqn:Ec; [exact IH|].
  destruct (split sep s) as [|h t]; cbn [forallb lacks] in *;
    rewrite Ec; [reflexivity|exact IH].
Qed.

Lemma lacks_app (c : ascii) (a b : string) :
  lacks c (a ++ b) = lacks c a && lacks c b.
Proof.
  induction a as [|x a IH]; [reflexivity|].
  cbn [append lacks]. now rewrite IH, andb_assoc.
Qed.

Lemma split_piece (sep : ascii) (x rest : string) :
  lacks sep x = true ->
  split sep (x ++ String sep rest) = x :: split sep rest.
Proof.
  induction x as [|c x IH]; intros Hx.
  - cbn [append split]. now rewrite Ascii.eqb_refl.
  - cbn [lacks] in Hx. apply andb_true_iff in Hx as [Hc Hx].
    cbn [append split]. apply negb_true_iff in Hc. now rewrite Hc, (IH Hx).
Qed.

Lemma split_whole (sep : ascii) (x : string) :
  lacks sep x = true -> split sep x = [x].
Proof.
  induction x as [|c x IH]; intros Hx; [reflexivity|].
  cbn [lacks] in Hx. apply andb_true_iff in Hx as [Hc Hx].
  cbn [split]. apply negb_true_iff in Hc. now rewrite Hc, (IH Hx).
Qed.

(** Splitting a join of pieces that lack the separator gives the pieces back. *)
Lemma split_join (sep : ascii) (x : string) (l : list string) :
  forallb (lacks sep) (x :: l) = true ->
  split sep (join (String sep "") (x :: l)) = x :: l.
Proof.
  revert x. induction l as [|y l IH]; intros x H;
    cbn [forallb] in H; apply andb_true_iff in H as [Hx Hl].
  - unfold join; cbn [concat]. now apply split_whole.
  - rewrite join_cons by discriminate.
    change (x ++ String sep "" ++ join (String sep "") (y :: l))%string
      with (x ++ String sep (join (String sep "") (y :: l)))%string.
    rewrite (split_piece sep x _ Hx). now rewrite (IH y Hl).
Qed.

Lemma append_assoc_string (a b c : string) :
  ((a ++ b) ++ c = a ++ (b ++ c))%string.
Proof. induction a as [|x a IH]; cbn; [reflexivity|now rewrite IH]. Qed.

Lemma join_snoc (sep : string) (l : list string) (x : string) :
  l <> [] -> join sep (l ++ [x]) = ((join sep l ++ sep) ++ x)%string.
Proof.
  induction l as [|a l IH]; intros Hne; [now elim Hne|].
  destruct l as [|b l].
  - change (join sep ([a] ++ [x])) with (a ++ sep ++ x)%string.
    change (join sep [a]) with a. now rewrite append_assoc_string.
  - change ((a :: b :: l) ++ [x]) with (a :: ((b :: l) ++ [x])).
    rewrite join_cons by (destruct l; discriminate).
    rewrite IH by discriminate.
    rewrite (join_cons sep a (b :: l)) by discriminate.
    now rewrite !append_assoc_string.
Qed.

Lemma ends_with_slash_app (a : string) : ends_with_slash (a ++ "/") = true.
Proof.
  induction a as [|c a IH]; [reflexivity|].
  cbn [append ends_with_slash]. destruct (a ++ "/")%string eqn:E; [|exact IH].
  destruct a; discriminate.
Qed.

Lemma last_item_snoc (l : list string) (x : string) : last_item (l ++ [x]) = Ok x.
Proof. unfold last_item. now rewrite rev_unit. Qed.

(** The last piece of a path: what comes after the last slash. *)
Lemma split_slash_last (s : string) :
  exists pre seg : string,
    last_item (split "/" s) = Ok seg /\ s = (pre ++ seg)%string /\
    (pre = "" \/ ends_with_slash pre = true) /\ lacks "/" seg = true.
Proof.
  pose proof (join_split "/" s) as Hj.
  pose proof (split_lacks "/" s) as Hl.
  destruct (split "/" s) as [|h t] eqn:E; [now apply split_not_nil in E|].
  rewrite (app_removelast_last "" (l := h :: t)) in * by discriminate.
  set (init := removelast (h :: t)) in *. set (seg := last (h :: t) "") in *.
  rewrite forallb_app in Hl. apply andb_true_iff in Hl as [_ Hl].
  cbn [forallb] in Hl. rewrite andb_true_r in Hl.
  rewrite last_item_snoc.
  destruct init as [|a init].
  - exists "", seg. repeat split; auto.
  - exists (join "/" (a :: init) ++ "/")%string, seg.
    rewrite join_snoc in Hj by discriminate.
    repeat split; auto. right. apply ends_with_slash_app.
Qed.

(** X11: without a file name, the value that [download] binds to the name is
    a list whose first element is the last path segment of the URL with the
    query string stripped: the URL ends with the elements of the list joined
    by question marks, after nothing or after a slash, and the first element
    holds neither a slash nor a question mark. *)
Theorem download_filename_first (url : string) (filename : option string) :
  truthy_opt filename = false ->
  exists (pre name : string) (rest : list string),
    download_filename url filename = Ok (PList (name :: rest)) /\
    url = (pre ++ join "?" (name :: rest))%string /\
    (pre = "" \/ ends_with_slash pre = true) /\
    lacks "/" name = true /\ lacks "?" name = true.
Proof.
  intros Hf. destruct (download_filename_is_list url filename Hf)
    as (seg & Hseg & ->).
  destruct (split_slash_last url) as (pre & seg' & Hseg' & Hu & Hpre & Hl).
  rewrite Hseg in Hseg'. injection Hseg' as <-.
  pose proof (join_split "?" seg) as Hj.
  pose proof (split_lacks "?" seg) as Hq.
  destruct (split "?" seg) as [|name rest] eqn:E; [now apply split_not_nil in E|].
  exists pre, name, rest. split; [reflexivity|].
  split; [now rewrite Hj|]. split; [exact Hpre|].
  cbn [forallb] in Hq. apply andb_true_iff in Hq as [Hn _].
  split; [|exact Hn].
  rewrite <- Hj in Hl. destruct rest as [|r rest].
  - exact Hl.
  - rewrite join_cons in Hl by discriminate. rewrite lacks_app in Hl.
    now apply andb_true_iff in Hl as [Hl _].
Qed.

Lemma download_filename_first_witness :
  truthy_opt None = false /\
  exists (pre name : string) (rest : list string),
    download_filename "https://example.com/a/pic.jpg?size=large" None
    = Ok (PList (name :: rest)) /\
    "https://example.com/a/pic.jpg?size=large"
    = (pre ++ join "?" (name :: rest))%string /\
    (pre = "" \/ ends_with_slash pre = true) /\
    lacks "/" name = true /\ lacks "?" name = true.
Proof.
  split; [reflexivity|].
  exact (download_filename_first "https://example.com/a/pic.jpg?size=large"
           None eq_refl).
Defined.

(** ** The safe-search code and the filter string, read backwards *)

(** X13: the provider code says which level was asked for: the code is 1
    exactly for the inputs that read on in lower case, -2 exactly for those
    that read off, and no other code than 1, -1 and -2 is ever sent; so the
    codes themselves, passed as the level, all select -1. *)
Theorem p_value_inverse (s : string) :
  (p_value s = "1" <-> lower s = "on") /\
  (p_value s = "-2" <-> lower s = "off") /\
  (p_value s = "1" \/ p_value s = "-1" \/ p_value s = "-2").
Proof.
  rewrite p_value_lower.
  destruct (String.eqb_spec "on" (lower s)) as [E|Hon].
  - rewrite <- E. repeat split; auto; discriminate.
  - destruct (String.eqb_spec "off" (lower s)) as [E|Hoff].
    + rewrite <- E. repeat split; auto; discriminate.
    + repeat split; auto; try discriminate; intros E; now elim Hon + elim Hoff.
Qed.

Lemma comma_free_lacks (s : string) : comma_free s = lacks ","%char s.
Proof.
  induction s as [|c s IH]; [reflexivity|].
  cbn [comma_free lacks]. now rewrite IH.
Qed.

Lemma clean_pieces_lack_comma (l : list string) :
  forallb clean_piece l = true -> forallb (lacks ","%char) l = true.
Proof.
  induction l as [|p l IH]; [reflexivity|]. cbn [forallb].
  intros H. apply andb_true_iff in H as [Hp Hl].
  unfold clean_piece in Hp. apply andb_true_iff in Hp as [_ Hp].
  now rewrite <- comma_free_lacks, Hp, IH.
Qed.

Lemma present_render_truthy (key : string) (v : option string) :
  forallb truthy (present_render key v) = true.
Proof.
  unfold present_render, truthy_opt, spec_render.
  destruct v as [s|]; [|reflexivity]. destruct (truthy s); [|reflexivity].
  cbn [forallb]. now rewrite truthy_rendering.
Qed.

Lemma join_truthy (sep p : string) (l : list string) :
  truthy p = true -> truthy (join sep (p :: l)) = true.
Proof.
  intros Hp. destruct l as [|q l]; [exact Hp|].
  rewrite join_cons by discriminate. now destruct p.
Qed.

(** X14: the filter string can be read back: it is empty exactly when no
    field is present, and when no value holds a comma, splitting it at the
    commas gives the renderings of the present fields back, in order. *)
Theorem f_value_split (fs : search_filters) :
  (f_value fs = "" <-> present_fields fs = []) /\
  (values_comma_free fs = true -> present_fields fs <> [] ->
   split ","%char (f_value fs) = present_fields fs).
Proof.
  rewrite f_value_present_fields. split.
  - split; [|now intros ->].
    assert (Ht : forallb truthy (present_fields fs) = true).
    { unfold present_fields. rewrite !forallb_app, !present_render_truthy.
      reflexivity. }
    destruct (present_fields fs) as [|p l]; [reflexivity|].
    cbn [forallb] in Ht. apply andb_true_iff in Ht as [Hp _].
    intros E. pose proof (join_truthy "," p l Hp) as H.
    rewrite E in H. discriminate.
  - intros Hc Hne.
    pose proof (clean_pieces_lack_comma _ (present_fields_clean fs Hc)) as Hl.
    destruct (present_fields fs) as [|p l]; [now elim Hne|].
    now apply (split_join ","%char).
Qed.

Lemma f_value_split_witness :
  values_comma_free filters_week_large = true /\
  present_fields filters_week_large <> [] /\
  split ","%char (f_value filters_week_large) = ["time:Week"; "size:Large"].
Proof.
  assert (Hne : present_fields filters_week_large <> []) by discriminate.
  split; [reflexivity|]. split; [exact Hne|].
  exact (proj2 (f_value_split filters_week_large) eq_refl Hne).
Defined.

(** ** [get_images_from_page]: the errors *)

(** X15: a scrape whose request raises a request error fails with the
    network error before anything is parsed; and when the HTTP client raises
    request errors only, a scrape that fails fails with the network error,
    the status error of httpx or the parsing error. *)
Theorem get_images_from_page_errors
    (find_all_img : string -> result (list (option string)))
    (urljoin : string -> string -> result string)
    (get_page : string -> result (response string)) (url : string) :
  (forall e' : exn, get_page url = Raise e' -> is_RequestError e' = true) ->
  (forall e' : exn,
      get_page url = Raise e' ->
      get_images_from_page find_all_img urljoin get_page url = Raise NetworkError) /\
  (forall e : exn,
      get_images_from_page find_all_img urljoin get_page url = Raise e ->
      e = NetworkError \/ e = HTTPStatusError \/ e = ParsingError).
Proof.
  intros Ht. split.
  - intros e' He. unfold get_images_from_page.
    now rewrite (checked_request_transport _ e' He (Ht e' He)).
  - intros e. unfold get_images_from_page.
    destruct (checked_request (get_page url)) as [r|e'] eqn:Ec; cbn [bind].
    + destruct (find_all_img (payload r)) as [tags|e'']; cbn [bind].
      * destruct (absolute_image_urls urljoin url (image_urls tags)); cbn;
          [discriminate|]. intros H; injection H as <-. auto.
      * cbn. intros H; injection H as <-. auto.
    + intros H; injection H as <-.
      destruct (checked_request_errors _ _ Ht Ec) as [-> | ->]; auto.
Qed.

Lemma get_images_from_page_errors_witness :
  (forall e' : exn,
      plain_get gallery_url = Raise e' -> is_RequestError e' = true) /\
  get_images_from_page gallery_find_all_img gallery_urljoin plain_get gallery_url
  = Raise ParsingError /\
  (ParsingError = NetworkError \/ ParsingError = HTTPStatusError
   \/ ParsingError = ParsingError).
Proof.
  assert (H : forall e' : exn,
             plain_get gallery_url = Raise e' -> is_RequestError e' = true)
    by (intros e' He; discriminate He).
  split; [exact H|]. split; [reflexivity|].
  exact (proj2 (get_images_from_page_errors gallery_find_all_img gallery_urljoin
                  plain_get gallery_url H) ParsingError eq_refl).
Defined.

(** ** The sample script *)

Lemma count_attempts_app (a b : list printed) :
  count_attempts (a ++ b) = count_attempts a + count_attempts b.
Proof.
  induction a as [|x a IH]; [reflexivity|].
  destruct x; cbn [app count_attempts]; rewrite IH; reflexivity.
Qed.

Lemma count_successes_app (a b : list printed) :
  count_successes (a ++ b) = count_successes a + count_successes b.
Proof.
  induction a as [|x a IH]; [reflexivity|].
  destruct x; cbn [app count_successes]; rewrite IH; reflexivity.
Qed.

Section SampleProperties.

Context {RawEntry ImageResult : Type}.
Variable model_validate : RawEntry -> result ImageResult.
Variable result_title : ImageResult -> string.
Variable result_width : ImageResult -> Z.
Variable result_height : ImageResult -> Z.
Variable result_image_url : ImageResult -> string.
Variable is_DDGSearchException : exn -> bool.
Variable post : string -> result (response (result string)).
Variable get : params -> result (response (result (page_data RawEntry))).
Variable stream : string -> result (response stream_body).

(** The script calls [download] without a file name: the call raises before
    it touches the disk or the network. *)
Lemma download_unnamed (url output_dir : string) :
  download stream url output_dir None = ([], Raise TypeError).
Proof.
  destruct (download_filename_is_list url None eq_refl) as (seg & _ & Hn).
  unfold download, output_path. now rewrite Hn.
Qed.

Lemma attempt_download_fails (n : Z) (r : ImageResult) :
  exists line : printed,
    attempt_download result_image_url is_DDGSearchException stream n r
    = ([PrintAttempting; line], [], n)
    /\ count_attempts [line] = 0 /\ count_successes [line] = 0.
Proof.
  unfold attempt_download. rewrite download_unnamed.
  destruct (is_DDGSearchException TypeError); eexists; repeat split.
Qed.

(** The loop of the script, started below the limit: it never reaches it. *)
Lemma main_loop_no_download (n : Z) (tr : list (event ImageResult)) :
  (n < MAX_IMAGES_TO_DOWNLOAD)%Z ->
  exists out : list printed,
    main_loop result_title result_width result_height result_image_url
      is_DDGSearchException stream n tr = (out, [], n, false)
    /\ count_successes out = 0
    /\ count_attempts out
       = List.length
           (List.filter (large_enough result_width result_height) (yields tr)).
Proof.
  intros Hn. induction tr as [|[k|p|r] tr (out & E & Hs & Ha)];
    cbn [main_loop yields].
  - now exists [].
  - now exists out.
  - now exists out.
  - apply Z.leb_gt in Hn. rewrite Hn, E. cbn [List.filter].
    unfold large_enough at 1.
    destruct (result_width r * result_height r <? MIN_PIXELS)%Z; cbn [negb].
    + eexists. split; [reflexivity|]. now split.
    + destruct (attempt_download_fails n r) as (line & -> & Hl1 & Hl2).
      rewrite E. eexists. split; [reflexivity|].
      cbn [count_successes count_attempts app List.length] in *.
      destruct line; cbn in *; try discriminate; now rewrite ?Hs, ?Ha.
Qed.

(** X12: the sample script never downloads anything.  Whatever the search
    yields and however it ends, the script finishes with a count of zero
    downloads and touches the disk only to create its output directory; it
    tries one download for each record of at least a megapixel, never one
    for a smaller record, and no attempt succeeds.  It finishes whenever the
    search does. *)
Theorem main_never_downloads (fuel : nat) :
  (forall (out : list printed) (effects : list effect) (n : Z),
      main model_validate result_title result_width result_height
        result_image_url is_DDGSearchException post get stream fuel
      = Some (out, effects, n) ->
      n = 0%Z /\ effects = [MakeDirs OUTPUT_DIR] /\
      count_successes out = 0 /\
      count_attempts out
      = List.length
          (List.filter (large_enough result_width result_height)
             (yields (fst (asearch model_validate get post SEARCH_QUERY None
                             "wt-wt" "-1" no_filters fuel))))) /\
  (snd (asearch model_validate get post SEARCH_QUERY None "wt-wt" "-1"
          no_filters fuel) <> OutOfFuel ->
   main model_validate result_title result_width result_height
     result_image_url is_DDGSearchException post get stream fuel <> None).
Proof.
  unfold main, main_on.
  destruct (asearch model_validate get post SEARCH_QUERY None "wt-wt" "-1"
              no_filters fuel) as [tr o].
  cbn [fst snd].
  destruct (main_loop_no_download 0 tr eq_refl) as (out0 & -> & Hs & Ha).
  split.
  - intros out effects n H.
    assert (Hfin : forall tail : list printed,
               count_successes tail = 0 -> count_attempts tail = 0 ->
               Some (PrintHeader :: out0 ++ tail ++ [PrintComplete 0],
                     [MakeDirs OUTPUT_DIR], 0%Z) = Some (out, effects, n) ->
               n = 0%Z /\ effects = [MakeDirs OUTPUT_DIR] /\
               count_successes out = 0 /\
               count_attempts out
               = List.length
                   (List.filter (large_enough result_width result_height)
                      (yields tr))).
    { intros tail Ht1 Ht2 E. injection E as <- <- <-.
      cbn [count_successes count_attempts].
      rewrite !count_successes_app, !count_attempts_app, Hs, Ha, Ht1, Ht2.
      cbn. repeat split; lia. }
    destruct o as [|e|]; [apply (Hfin [])| |discriminate]; auto.
    destruct (is_DDGSearchException e);
      [apply (Hfin [PrintSearchError e])|apply (Hfin [PrintCritical e])]; auto.
  - intros Ho. destruct o as [|e|]; [discriminate| |now elim Ho].
    destruct (is_DDGSearchException e); discriminate.
Qed.

End SampleProperties.

Lemma main_never_downloads_witness :
  main validate_entry title width height image_url is_package_error
    post_token (serve wide_page) stream_ok 2
  = Some ([PrintHeader;
           PrintFound "wide" 1920 1080;
           PrintSource "https://img.example/wide.jpg";
           PrintAttempting; PrintDownloadUnexpected TypeError;
           PrintFound "a" 640 480; PrintSkipping;
           PrintComplete 0],
          [MakeDirs "image_downloads"], 0%Z) /\
  count_attempts
    [PrintHeader;
     PrintFound "wide" 1920 1080;
     PrintSource "https://img.example/wide.jpg";
     PrintAttempting; PrintDownloadUnexpected TypeError;
     PrintFound "a" 640 480; PrintSkipping;
     PrintComplete 0]
  = List.length
      (List.filter (large_enough width height)
         (yields (fst (asearch validate_entry (serve wide_page) post_token
                         SEARCH_QUERY None "wt-wt" "-1" no_filters 2)))).
Proof.
  split; [reflexivity|].
  exact (proj2 (proj2 (proj2
           (proj1 (main_never_downloads validate_entry title width height
                     image_url is_package_error post_token (serve wide_page)
                     stream_ok 2) _ _ _ eq_refl)))).
Defined.
